(** * TyphoonHQuickInterface: a shallow embedding of the list, map and
      file workflows of [custom/src/TyphoonHQuickInterface.cc].

    Every definition follows the C++ function of the same name.  Qt
    containers are modelled by value: [QList]/[QVariantList] as [list],
    [QMap<QString,QString>] and a [QSettings] group as [gmap string string],
    [QString] as [string], [int]/[qint64] as [Z], [double] as the IEEE
    binary64 values of [spec_float].  Emitted signals, platform calls and
    timers are recorded in the state in the order the code issues them.

    The class keeps all its fields in one object; each module below holds
    the fields one workflow reads or writes.  Part I is the model, Part II
    the properties. *)

From Stdlib Require Import ZArith List String Ascii Bool Lia.
From Stdlib Require Import Sorting.Sorted Sorting.Permutation.
From Stdlib Require Import Floats.SpecFloat.
From Stdlib Require Import Structures.OrderedTypeEx.
From Stdlib Require Import Numbers.DecimalString.
From stdpp Require Import base gmap strings list.

Open Scope Z_scope.

(* ################################################################## *)
(** * Part I: the model *)
(* ################################################################## *)

(* ================================================================== *)
(** ** [std::sort] *)
(* ================================================================== *)

(** [std::sort(first, last, comp)] rearranges the range so that no element
    is ordered by [comp] before its predecessor.  The order it gives to
    elements that [comp] does not separate is unspecified; [std_sort] is one
    admissible implementation (insertion), and the results of Part II use
    only that its output is an ordered permutation of its input. *)
Module StdSort.
Section Sort.
Context {A : Type} (comp : A -> A -> bool).

Fixpoint insert (x : A) (l : list A) : list A :=
  match l with
  | [] => [x]
  | y :: l' => if comp x y then x :: y :: l' else y :: insert x l'
  end.

Definition std_sort (l : list A) : list A := foldr insert [] l.

(** The order [std::sort] establishes between neighbours: the later
    element is not ordered before the earlier one. *)
Definition in_order (a b : A) : Prop := comp b a = false.

(** The same, read off the positions of the list. *)
Definition adjacent_ordered (l : list A) : Prop :=
  forall (i : nat) (a b : A),
    l !! i = Some a -> l !! S i = Some b -> in_order a b.

End Sort.
End StdSort.

(* ================================================================== *)
(** ** WiFi scan list and credential map *)
(* ================================================================== *)

Module Wifi.
Import StdSort.

(** Compile-time configuration.  [__androidx86__] and [QT_DEBUG] select
    code in the functions below.  [startScan_default] is the default
    argument of [startScan(int delay)], declared in the class header. *)
Record Build := {
  androidx86 : bool;
  qt_debug : bool;
  startScan_default : Z
}.

(** [TyphoonSSIDItem]: SSID string and signal strength.  The class and
    its setter [setRssi] are declared in the class header. *)
Record TyphoonSSIDItem := { ssid : string; rssi : Z }.

Definition setRssi (r : Z) (s : TyphoonSSIDItem) : TyphoonSSIDItem :=
  {| ssid := ssid s; rssi := r |}.

Inductive Signal :=
| ssidListChanged
| scanningWiFiChanged
| bindingWiFiChanged
| connectedSSIDChanged
| authenticationError.

(** Slots armed through [QTimer::singleShot]. *)
Inductive Slot := slot_scanWifi.

Record State := {
  _ssidList : list TyphoonSSIDItem;
  _configurations : gmap string string;
  _ssid : string;
  _scanEnabled : bool;
  _scanningWiFi : bool;
  _bindingWiFi : bool;
  (** the [kWifiConfig] group of [QSettings] *)
  settings_WifiConfig : gmap string string;
  (** static Java methods called through JNI, oldest first *)
  jni : list string;
  (** pending single-shot timers: delay and slot *)
  timers : list (Z * Slot);
  (** signals emitted, oldest first *)
  emitted : list Signal
}.

Definition set_ssidList (l : list TyphoonSSIDItem) (s : State) : State :=
  {| _ssidList := l; _configurations := _configurations s; _ssid := _ssid s;
     _scanEnabled := _scanEnabled s; _scanningWiFi := _scanningWiFi s;
     _bindingWiFi := _bindingWiFi s;
     settings_WifiConfig := settings_WifiConfig s; jni := jni s;
     timers := timers s; emitted := emitted s |}.

Definition set_configurations (m : gmap string string) (s : State) : State :=
  {| _ssidList := _ssidList s; _configurations := m; _ssid := _ssid s;
     _scanEnabled := _scanEnabled s; _scanningWiFi := _scanningWiFi s;
     _bindingWiFi := _bindingWiFi s;
     settings_WifiConfig := settings_WifiConfig s; jni := jni s;
     timers := timers s; emitted := emitted s |}.

Definition set_scanEnabled (b : bool) (s : State) : State :=
  {| _ssidList := _ssidList s; _configurations := _configurations s;
     _ssid := _ssid s;
     _scanEnabled := b; _scanningWiFi := _scanningWiFi s;
     _bindingWiFi := _bindingWiFi s;
     settings_WifiConfig := settings_WifiConfig s; jni := jni s;
     timers := timers s; emitted := emitted s |}.

Definition set_scanningWiFi (b : bool) (s : State) : State :=
  {| _ssidList := _ssidList s; _configurations := _configurations s;
     _ssid := _ssid s;
     _scanEnabled := _scanEnabled s; _scanningWiFi := b;
     _bindingWiFi := _bindingWiFi s;
     settings_WifiConfig := settings_WifiConfig s; jni := jni s;
     timers := timers s; emitted := emitted s |}.

Definition set_bindingWiFi (b : bool) (s : State) : State :=
  {| _ssidList := _ssidList s; _configurations := _configurations s;
     _ssid := _ssid s;
     _scanEnabled := _scanEnabled s; _scanningWiFi := _scanningWiFi s;
     _bindingWiFi := b;
     settings_WifiConfig := settings_WifiConfig s; jni := jni s;
     timers := timers s; emitted := emitted s |}.

Definition set_settings (m : gmap string string) (s : State) : State :=
  {| _ssidList := _ssidList s; _configurations := _configurations s;
     _ssid := _ssid s;
     _scanEnabled := _scanEnabled s; _scanningWiFi := _scanningWiFi s;
     _bindingWiFi := _bindingWiFi s;
     settings_WifiConfig := m; jni := jni s;
     timers := timers s; emitted := emitted s |}.

Definition call_jni (method : string) (s : State) : State :=
  {| _ssidList := _ssidList s; _configurations := _configurations s;
     _ssid := _ssid s;
     _scanEnabled := _scanEnabled s; _scanningWiFi := _scanningWiFi s;
     _bindingWiFi := _bindingWiFi s;
     settings_WifiConfig := settings_WifiConfig s;
     jni := jni s ++ [method];
     timers := timers s; emitted := emitted s |}.

Definition singleShot (delay : Z) (slot : Slot) (s : State) : State :=
  {| _ssidList := _ssidList s; _configurations := _configurations s;
     _ssid := _ssid s;
     _scanEnabled := _scanEnabled s; _scanningWiFi := _scanningWiFi s;
     _bindingWiFi := _bindingWiFi s;
     settings_WifiConfig := settings_WifiConfig s; jni := jni s;
     timers := timers s ++ [(delay, slot)]; emitted := emitted s |}.

Definition emit (sig : Signal) (s : State) : State :=
  {| _ssidList := _ssidList s; _configurations := _configurations s;
     _ssid := _ssid s;
     _scanEnabled := _scanEnabled s; _scanningWiFi := _scanningWiFi s;
     _bindingWiFi := _bindingWiFi s;
     settings_WifiConfig := settings_WifiConfig s; jni := jni s;
     timers := timers s; emitted := emitted s ++ [sig] |}.

(** [compareRSSI]: [s1->rssi() > s2->rssi()]. *)
Definition compareRSSI (v1 v2 : TyphoonSSIDItem) : bool :=
  rssi v1 >? rssi v2.

(** [_findSsid]: the first item whose SSID equals [name] gets the new
    signal strength and is returned; [None] is the [NULL] result.  The
    second component is the list after the call. *)
Fixpoint _findSsid (name : string) (r : Z) (l : list TyphoonSSIDItem)
  : option TyphoonSSIDItem * list TyphoonSSIDItem :=
  match l with
  | [] => (None, [])
  | s :: l' =>
      if String.eqb (ssid s) name then (Some (setRssi r s), setRssi r s :: l')
      else let '(found, l'') := _findSsid name r l' in (found, s :: l'')
  end.

Definition _clearSSids (s : State) : State := set_ssidList [] s.

(** The SSID prefixes a release build accepts. *)
Definition typhoon_prefix (name : string) : bool :=
  String.prefix "CGOET" name || String.prefix "E10T" name
  || String.prefix "E90_" name || String.prefix "E50_" name.

(** [_newSSID]: the prefix test is compiled out under [QT_DEBUG]. *)
Definition _newSSID (b : Build) (name : string) (r : Z) (s : State) : State :=
  if qt_debug b || typhoon_prefix name then
    match _findSsid name r (_ssidList s) with
    | (Some _, l) => set_ssidList l s
    | (None, l) =>
        let ssidInfo := {| ssid := name; rssi := r |} in
        emit ssidListChanged
          (set_ssidList (std_sort compareRSSI (l ++ [ssidInfo])) s)
    end
  else s.

Definition _scanWifi (b : Build) (s : State) : State :=
  let s := if androidx86 b then call_jni "startWifiScan" s else s in
  emit scanningWiFiChanged (set_scanningWiFi true s).

Definition startScan (b : Build) (delay : Z) (s : State) : State :=
  let s := _clearSSids s in
  let s := set_scanEnabled true s in
  let s := emit ssidListChanged s in
  if androidx86 b then
    if negb (delay =? 0) then singleShot delay slot_scanWifi s
    else _scanWifi b s
  else
    let s := _newSSID b "Some SSID" 0 s in
    let s := _newSSID b "Another SSID" (-10) s in
    let s := _newSSID b "Yet Another SSID" (-20) s in
    let s := _newSSID b "More SSID" (-30) s in
    let s := _newSSID b "CIA Headquarters" (-40) s in
    let s := _newSSID b "Trump Putin Direct" (-50) s in
    let s := _newSSID b "Short" (-60) s in
    _newSSID b "A Whole Lot Longer and Useless" (-90) s.

(** [_saveWifiConfigurations]: the settings group is emptied
    ([settings.remove("")]) and every entry with a non-empty key is
    written back. *)
Definition _saveWifiConfigurations (s : State) : State :=
  set_settings
    (map_fold
       (fun (key value : string) (group : gmap string string) =>
          if negb (String.eqb key "") then <[key := value]> group else group)
       ∅ (_configurations s))
    s.

Definition _authenticationError (b : Build) (s : State) : State :=
  let s :=
    if bool_decide (is_Some (_configurations s !! _ssid s)) then
      _saveWifiConfigurations
        (set_configurations (delete (_ssid s) (_configurations s)) s)
    else s in
  let s := set_bindingWiFi false s in
  let s := emit bindingWiFiChanged s in
  let s := emit connectedSSIDChanged s in
  let s := emit authenticationError s in
  startScan b (startScan_default b) s.

(** A run of [_newSSID] calls, as the scan reports networks. *)
Definition newSSIDs (b : Build) (reports : list (string * Z)) (s : State)
  : State :=
  fold_left (fun s report => _newSSID b report.1 report.2 s) reports s.

(** *** Vocabulary of the properties *)

(** The SSID strings of a list, in order. *)
Definition ssids (l : list TyphoonSSIDItem) : list string := map ssid l.

(** Descending signal strength between neighbours. *)
Definition descending_rssi (l : list TyphoonSSIDItem) : Prop :=
  forall (i : nat) (a b : TyphoonSSIDItem),
    l !! i = Some a -> l !! S i = Some b -> rssi a >= rssi b.

(** Whether [_newSSID] looks at a report at all in build [b]. *)
Definition accepted (b : Build) (name : string) : bool :=
  qt_debug b || typhoon_prefix name.

(** What the list of a scan keeps true: SSIDs are distinct, and each one
    is a name the build accepts. *)
Definition scan_inv (b : Build) (l : list TyphoonSSIDItem) : Prop :=
  List.NoDup (ssids l) /\
  forall name, List.In name (ssids l) -> accepted b name = true.

(** What [_saveWifiConfigurations] leaves in the settings group for the
    map [m]: the entries of [m] under a non-empty key. *)
Definition persisted (m group : gmap string string) : Prop :=
  forall key : string,
    group !! key = if String.eqb key "" then None else m !! key.

End Wifi.

(* ================================================================== *)
(** ** Log rotation in [init] *)
(* ================================================================== *)

Module Logs.
Import StdSort.

(** What [init] reads of a [QFileInfo]: path, creation time (milliseconds
    since the epoch) and size in bytes. *)
Record QFileInfo := { filePath : string; created : Z; size : Z }.

(** [created_greater_than]: [f1.created() > f2.created()]. *)
Definition created_greater_than (f1 f2 : QFileInfo) : bool :=
  created f1 >? created f2.

(** The first loop of [init]: [totalLogSize += logs[i].size()]. *)
Definition total_size (logs : list QFileInfo) : Z :=
  fold_left (fun total f => total + size f) logs 0.

(** The [while] loop of [init]: as long as [totalLogSize] is above
    [1024 * 1024 * 1024] and [logs] is not empty, [logs[0]] is removed from
    disk and from the list.  The result is the paths given to
    [QFile::remove], in order, and the list that is left. *)
Fixpoint remove_logs (totalLogSize : Z) (logs : list QFileInfo)
  : list string * list QFileInfo :=
  match logs with
  | [] => ([], [])
  | f :: rest =>
      if totalLogSize >? 1024 * 1024 * 1024 then
        let '(removed, kept) := remove_logs (totalLogSize - size f) rest in
        (filePath f :: removed, kept)
      else ([], logs)
  end.

(** The log part of [init], from the directory listing [entries]. *)
Definition init_logs (entries : list QFileInfo)
  : list string * list QFileInfo :=
  let logs := std_sort created_greater_than entries in
  if Z.of_nat (length logs) >? 1 then remove_logs (total_size logs) logs
  else ([], logs).

(** *** Vocabulary of the properties *)

(** [f] is an oldest file of [logs]: none was created before it. *)
Definition oldest (f : QFileInfo) (logs : list QFileInfo) : Prop :=
  List.In f logs /\ forall g, List.In g logs -> created f <= created g.

End Logs.

(* ================================================================== *)
(** ** [TyphoonHFileCopy::startCopy] *)
(* ================================================================== *)

Module FileCopy.

Definition READ_CHUNK_SIZE : Z := 1024 * 1024 * 4.

Inductive Signal :=
| copyError (errorMsg : string)
| copyProgress (current : Z)
| copyDone.

(** Calls on the two devices: [inFile.read(data, maxSize)] and
    [outFile.write(data, len)], each with the value it returned. *)
Inductive IoOp :=
| io_read (maxSize ret : Z)
| io_write (len ret : Z).

(** What the platform decides: whether each file opens, whether the
    [n]-th pass of the loop has a failing read (a negative return), what
    its write of [len] bytes returns, and the percentage
    [(int)((double)current / (double)total * 100.0)]. *)
Record Env := {
  can_open_src : bool;
  can_open_dst : bool;
  read_fails : nat -> bool;
  write_ret : nat -> Z -> Z;
  percent : Z -> Z -> Z
}.

(** [QFile::read] on a regular file: up to [maxSize] bytes from the
    current position, fewer only at the end of the file.  The result is
    the bytes read and the bytes still unread. *)
Fixpoint read_chunk (maxSize : Z) (rest : list Byte.byte)
  : list Byte.byte * list Byte.byte :=
  match rest with
  | [] => ([], [])
  | x :: rest' =>
      if maxSize <=? 0 then ([], rest)
      else let '(data, unread) := read_chunk (maxSize - 1) rest' in
           (x :: data, unread)
  end.

(** How the loop ends: all input written to [out], or an error return. *)
Inductive Outcome :=
| Copied (out : list Byte.byte)
| Failed.

(** The [while(!inFile.atEnd())] loop.  [n] counts the passes, [rest] is
    the unread input, [out] the bytes written so far.  A pass that reads
    at least one byte shortens [rest], so [length rest] passes are enough;
    [None] is a run that would need more than [fuel] passes. *)
Fixpoint copy_loop (fuel : nat) (env : Env) (total : Z) (n : nat)
    (current : Z) (rest out : list Byte.byte)
  : option (list Signal * list IoOp * Outcome) :=
  match rest with
  | [] => Some ([copyDone], [], Copied out)
  | _ :: _ =>
      match fuel with
      | O => None
      | S fuel' =>
          if read_fails env n then
            Some ([copyError "Error reading firmware file."],
                  [io_read READ_CHUNK_SIZE (-1)], Failed)
          else
            let '(data, unread) := read_chunk READ_CHUNK_SIZE rest in
            let count := Z.of_nat (length data) in
            let written := write_ret env n count in
            if negb (count =? 0) && negb (written =? count) then
              Some ([copyError "Error writing firmware file."],
                    [io_read READ_CHUNK_SIZE count; io_write count written],
                    Failed)
            else
              let ops :=
                io_read READ_CHUNK_SIZE count ::
                (if negb (count =? 0) then [io_write count written] else []) in
              let current := current + count in
              let progress := percent env current total in
              match copy_loop fuel' env total (S n) current unread
                      (out ++ data) with
              | None => None
              | Some (sigs, ops', res) =>
                  Some (copyProgress progress :: sigs, ops ++ ops', res)
              end
      end
  end.

(** What a run leaves behind: the signals and device calls in order, and
    the files on disk, by path. *)
Record Result := {
  signals : list Signal;
  io : list IoOp;
  files : gmap string (list Byte.byte)
}.

(** [startCopy]: opening [_dst] for writing creates or truncates it; a
    failed read or write closes and removes it. *)
Definition startCopy (_src _dst : string) (env : Env)
    (fs : gmap string (list Byte.byte)) : option Result :=
  let total := Z.of_nat (length (default [] (fs !! _src))) in
  if negb (can_open_src env && bool_decide (is_Some (fs !! _src))) then
    Some {| signals := [copyError "Error opening firmware update file."];
            io := []; files := fs |}
  else if negb (can_open_dst env) then
    Some {| signals := [copyError "Error opening firmware destination file."];
            io := []; files := fs |}
  else
    let fs := <[_dst := []]> fs in
    let input := default [] (fs !! _src) in
    match copy_loop (length input) env total 0 0 input [] with
    | None => None
    | Some (sigs, ops, Copied out) =>
        Some {| signals := sigs; io := ops; files := <[_dst := out]> fs |}
    | Some (sigs, ops, Failed) =>
        Some {| signals := sigs; io := ops; files := delete _dst fs |}
    end.

(** *** Vocabulary of the properties *)

(** Every read and every write succeeds. *)
Definition no_faults (env : Env) : Prop :=
  (forall n, read_fails env n = false) /\
  (forall n len, write_ret env n len = len).

(** A device call that failed: a read that returned a negative count, or
    a write that did not return the length it was given. *)
Definition io_failed (op : IoOp) : bool :=
  match op with
  | io_read _ ret => ret <? 0
  | io_write len ret => negb (ret =? len)
  end.

(** The device calls of a run that moves chunks of the given lengths:
    each chunk is one read of [READ_CHUNK_SIZE] bytes at most and one
    write of what the read returned. *)
Definition chunk_ops (lens : list Z) : list IoOp :=
  flat_map (fun len => [io_read READ_CHUNK_SIZE len; io_write len len]) lens.

(** Chunks of [READ_CHUNK_SIZE] bytes each, but for a shorter last one. *)
Definition fixed_chunks (lens : list Z) : Prop :=
  exists (k : nat) (last : list Z),
    lens = repeat READ_CHUNK_SIZE k ++ last /\
    (last = [] \/ exists r, last = [r] /\ 0 < r < READ_CHUNK_SIZE).

(** The bytes moved by chunks of the given lengths. *)
Definition bytes_moved (lens : list Z) : Z := fold_right Z.add 0 lens.

(** The chunks of a run over [size] bytes: as many full ones as fit, and
    one for the remainder when there is one. *)
Definition chunks_of (size : Z) : list Z :=
  repeat READ_CHUNK_SIZE (Z.to_nat (size / READ_CHUNK_SIZE))
  ++ (if size mod READ_CHUNK_SIZE =? 0 then []
      else [size mod READ_CHUNK_SIZE]).

(** The percentages reported while chunks of the given lengths are moved,
    [current] bytes having been moved before: one after each chunk, of
    the bytes moved so far. *)
Fixpoint progress_reports (env : Env) (total current : Z) (lens : list Z)
  : list Z :=
  match lens with
  | [] => []
  | len :: lens' =>
      percent env (current + len) total
      :: progress_reports env total (current + len) lens'
  end.

Definition is_copyError (sig : Signal) : bool :=
  match sig with copyError _ => true | _ => false end.

(** Progress reports and then one closing signal. *)
Definition ends_with (final : Signal) (sigs : list Signal) : Prop :=
  exists percents : list Z, sigs = map copyProgress percents ++ [final].

End FileCopy.

(* ================================================================== *)
(** ** Mission import *)
(* ================================================================== *)

Module Missions.

Inductive Signal :=
| copyingFilesChanged
| copyingDoneChanged
| copyMessageChanged
| updateProgressChanged.

Inductive Slot := slot_importMissions.

(** What [_importMissions] reads of a [QFileInfo]. *)
Record QFileInfo := { filePath : string; fileName : string }.

(** The platform: whether the source directory exists, the [*.plan]
    files [QDirIterator] finds under it, the mission directory of the
    application settings, and the percentage
    [(int)((float)curCount / (float)totalCount * 100.0f)]. *)
Record Env := {
  source_exists : bool;
  plan_files : list QFileInfo;
  missionSavePath : string;
  percent : Z -> Z -> Z
}.

Record State := {
  _copyingFiles : bool;
  _copyingDone : bool;
  _copyMessage : string;
  _updateProgress : Z;
  (** files on disk, by path *)
  files : gmap string (list Byte.byte);
  timers : list (Z * Slot);
  emitted : list Signal
}.

Definition set_copyingFiles (b : bool) (s : State) : State :=
  {| _copyingFiles := b; _copyingDone := _copyingDone s;
     _copyMessage := _copyMessage s; _updateProgress := _updateProgress s;
     files := files s; timers := timers s; emitted := emitted s |}.

Definition set_copyingDone (b : bool) (s : State) : State :=
  {| _copyingFiles := _copyingFiles s; _copyingDone := b;
     _copyMessage := _copyMessage s; _updateProgress := _updateProgress s;
     files := files s; timers := timers s; emitted := emitted s |}.

Definition set_copyMessage (m : string) (s : State) : State :=
  {| _copyingFiles := _copyingFiles s; _copyingDone := _copyingDone s;
     _copyMessage := m; _updateProgress := _updateProgress s;
     files := files s; timers := timers s; emitted := emitted s |}.

Definition set_updateProgress (p : Z) (s : State) : State :=
  {| _copyingFiles := _copyingFiles s; _copyingDone := _copyingDone s;
     _copyMessage := _copyMessage s; _updateProgress := p;
     files := files s; timers := timers s; emitted := emitted s |}.

Definition set_files (fs : gmap string (list Byte.byte)) (s : State) : State :=
  {| _copyingFiles := _copyingFiles s; _copyingDone := _copyingDone s;
     _copyMessage := _copyMessage s; _updateProgress := _updateProgress s;
     files := fs; timers := timers s; emitted := emitted s |}.

Definition singleShot (delay : Z) (slot : Slot) (s : State) : State :=
  {| _copyingFiles := _copyingFiles s; _copyingDone := _copyingDone s;
     _copyMessage := _copyMessage s; _updateProgress := _updateProgress s;
     files := files s; timers := timers s ++ [(delay, slot)];
     emitted := emitted s |}.

Definition emit (sig : Signal) (s : State) : State :=
  {| _copyingFiles := _copyingFiles s; _copyingDone := _copyingDone s;
     _copyMessage := _copyMessage s; _updateProgress := _updateProgress s;
     files := files s; timers := timers s; emitted := emitted s ++ [sig] |}.

Definition _copyProgress (env : Env) (totalCount curCount : Z) (s : State)
  : State :=
  let s :=
    if totalCount =? 0 then set_updateProgress 0 s
    else set_updateProgress (percent env curCount totalCount) s in
  emit updateProgressChanged s.

Definition _exportMessage (message : string) (s : State) : State :=
  emit copyMessageChanged (set_copyMessage message s).

Definition importMission (s : State) : State :=
  let s := set_copyingFiles true s in
  let s := emit copyingFilesChanged s in
  singleShot 10 slot_importMissions s.

(** [QFile::copy]: fails when the source is missing or the target exists. *)
Definition QFile_copy (from to : string) (fs : gmap string (list Byte.byte))
  : option (gmap string (list Byte.byte)) :=
  match fs !! from, fs !! to with
  | Some content, None => Some (<[to := content]> fs)
  | _, _ => None
  end.

(** The [while(fil.size())] loop of [_importMissions]. *)
Fixpoint import_loop (env : Env) (totalFiles curCount : Z)
    (fil : list QFileInfo) (s : State) : State :=
  match fil with
  | [] =>
      let s := _exportMessage
                 (NilZero.string_of_int (Z.to_int totalFiles)
                    ++ " files imported")%string s in
      let s := set_copyingFiles false s in
      let s := set_copyingDone true s in
      let s := emit copyingFilesChanged s in
      emit copyingDoneChanged s
  | fi :: fil' =>
      let output := (missionSavePath env ++ "/" ++ fileName fi)%string in
      let s :=
        if bool_decide (is_Some (files s !! output)) then
          set_files (delete output (files s)) s
        else s in
      match QFile_copy (filePath fi) output (files s) with
      | None =>
          let s := _exportMessage
                     ("Error importing " ++ filePath fi)%string s in
          let s := set_copyingFiles false s in
          let s := set_copyingDone true s in
          let s := emit copyingFilesChanged s in
          emit copyingDoneChanged s
      | Some fs =>
          let s := set_files fs s in
          let curCount := curCount + 1 in
          let s := _copyProgress env totalFiles curCount s in
          import_loop env totalFiles curCount fil' s
      end
  end.

Definition _importMissions (env : Env) (s : State) : State :=
  if negb (source_exists env) then
    _exportMessage
      "Source path missing. Make sure you have a (FAT32 Formatted) microSD card loaded."
      s
  else
    let s := _exportMessage "Importing mission files..." s in
    let fil := plan_files env in
    let totalFiles := Z.of_nat (length fil) in
    let s := _copyProgress env totalFiles 0 s in
    import_loop env totalFiles 0 fil s.

End Missions.

(* ================================================================== *)
(** ** Media list *)
(* ================================================================== *)

Module Media.
Import StdSort.

(** [TyphoonMediaItem]: file name and selection flag.  The constructor is
    declared in the class header; a new item is not selected. *)
Record TyphoonMediaItem := { fileName : string; selected : bool }.

Inductive Signal :=
| selectedCountChanged
| mediaListChanged.

(** An entry of a directory, with what [QDir]'s filter flags test. *)
Record DirEntry := {
  name : string;
  isFile : bool;
  isReadable : bool;
  isSymLink : bool;
  isHidden : bool
}.

(** The platform: the save path of the application settings, the
    [YUNEEC_VIDEO_EXTENSION] macro of the camera header, and the entries
    of each directory in the order [QDir] lists them. *)
Record Env := {
  savePath : string;
  YUNEEC_VIDEO_EXTENSION : string;
  dir_entries : string -> list DirEntry
}.

Record State := {
  _mediaList : list TyphoonMediaItem;
  _selectedCount : Z;
  _browseVideos : bool;
  emitted : list Signal
}.

Definition set_mediaList (l : list TyphoonMediaItem) (s : State) : State :=
  {| _mediaList := l; _selectedCount := _selectedCount s;
     _browseVideos := _browseVideos s; emitted := emitted s |}.

Definition set_selectedCount (n : Z) (s : State) : State :=
  {| _mediaList := _mediaList s; _selectedCount := n;
     _browseVideos := _browseVideos s; emitted := emitted s |}.

Definition emit (sig : Signal) (s : State) : State :=
  {| _mediaList := _mediaList s; _selectedCount := _selectedCount s;
     _browseVideos := _browseVideos s; emitted := emitted s ++ [sig] |}.

(** [QString::operator>]: code units compared in lexical order. *)
Definition QString_gt (a b : string) : bool :=
  match String.compare a b with Gt => true | _ => false end.

(** Letters compared without case, as [QDir] name filters do unless
    [QDir::CaseSensitive] is set. *)
Definition to_lower (c : ascii) : ascii :=
  let n := N_of_ascii c in
  if ((65 <=? n) && (n <=? 90))%N then ascii_of_N (n + 32) else c.

(** A [QDir] name filter: [*] stands for any run of characters, [?] for
    any one character.  (Bracketed sets do not occur in this file.) *)
Fixpoint wildcard (pattern : string) : string -> bool :=
  match pattern with
  | EmptyString =>
      fun s => match s with EmptyString => true | String _ _ => false end
  | String c pattern' =>
      if Ascii.eqb c "*" then
        fix star (s : string) : bool :=
          wildcard pattern' s
          || match s with EmptyString => false | String _ s' => star s' end
      else
        fun s =>
          match s with
          | EmptyString => false
          | String d s' =>
              (Ascii.eqb c "?" || Ascii.eqb (to_lower c) (to_lower d))
              && wildcard pattern' s'
          end
  end.

(** The filter [QDir::Files | QDir::Readable | QDir::NoSymLinks]: files
    the application may read, no symbolic links, and, [QDir::Hidden] not
    being set, no hidden files. *)
Definition passes_filter (e : DirEntry) : bool :=
  isFile e && isReadable e && negb (isSymLink e) && negb (isHidden e).

Definition matches_names (nameFilters : list string) (e : DirEntry) : bool :=
  existsb (fun pattern => wildcard pattern (name e)) nameFilters.

(** [QDir::entryList] under that filter and the name filters. *)
Definition entryList (nameFilters : list string) (entries : list DirEntry)
  : list string :=
  map name
    (List.filter (fun e => passes_filter e && matches_names nameFilters e)
       entries).

Definition clearMediaItems (s : State) : State := set_mediaList [] s.

Definition appendMediaItem (p : TyphoonMediaItem) (s : State) : State :=
  set_mediaList (_mediaList s ++ [p]) s.

Definition mediaCount (s : State) : Z := Z.of_nat (length (_mediaList s)).

(** The result of [mediaItem]: an item, [NULL], or a read outside the
    list (which [QList::at] does not allow). *)
Inductive ItemPtr :=
| Item (p : TyphoonMediaItem)
| Null
| OutOfBounds.

Definition QList_at (l : list TyphoonMediaItem) (i : Z) : ItemPtr :=
  if i <? 0 then OutOfBounds
  else match l !! Z.to_nat i with
       | Some p => Item p
       | None => OutOfBounds
       end.

Definition mediaItem (index : Z) (s : State) : ItemPtr :=
  let size := Z.of_nat (length (_mediaList s)) in
  if (index >=? 0) && negb (size =? 0) && (index <? size)
  then QList_at (_mediaList s) index
  else Null.

Definition nameFilters (env : Env) (s : State) : list string :=
  if _browseVideos s then [("*" ++ YUNEEC_VIDEO_EXTENSION env)%string]
  else ["*.jpg"; "*.JPG"]%string.

Definition photoPath (env : Env) (s : State) : string :=
  if _browseVideos s then (savePath env ++ "/Video")%string
  else (savePath env ++ "/Photo")%string.

Definition refreshMeadiaList (env : Env) (s : State) : State :=
  let s := clearMediaItems s in
  let s := set_selectedCount 0 s in
  let s := emit selectedCountChanged s in
  let list := entryList (nameFilters env s) (dir_entries env (photoPath env s)) in
  let s :=
    fold_left
      (fun s fileName =>
         appendMediaItem {| fileName := fileName; selected := false |} s)
      list s in
  let s :=
    set_mediaList
      (std_sort (fun a b => QString_gt (fileName a) (fileName b))
         (_mediaList s)) s in
  emit mediaListChanged s.

(** *** Vocabulary of the properties *)

Definition fileNames (l : list TyphoonMediaItem) : list string :=
  map fileName l.

(** File names in descending order between neighbours: the earlier one is
    not below the later one. *)
Definition descending_names (l : list TyphoonMediaItem) : Prop :=
  forall (i : nat) (a b : TyphoonMediaItem),
    l !! i = Some a -> l !! S i = Some b ->
    String.compare (fileName a) (fileName b) <> Lt.

(** The entries of the browsed directory. *)
Definition browsed (env : Env) (s : State) : list DirEntry :=
  dir_entries env (photoPath env s).

(** The list holds exactly the names of the entries that the name
    filters match. *)
Definition lists_name_matches (env : Env) (s s' : State) : Prop :=
  forall n : string,
    List.In n (fileNames (_mediaList s')) <->
    exists e, List.In e (browsed env s) /\ name e = n
              /\ matches_names (nameFilters env s) e = true.

(** The list holds exactly the names of the entries that pass the
    directory filter and that the name filters match. *)
Definition lists_filtered_matches (env : Env) (s s' : State) : Prop :=
  forall n : string,
    List.In n (fileNames (_mediaList s')) <->
    exists e, List.In e (browsed env s) /\ name e = n
              /\ passes_filter e = true
              /\ matches_names (nameFilters env s) e = true.

End Media.

(* ================================================================== *)
(** ** Thermal opacity *)
(* ================================================================== *)

Module Thermal.

Inductive Signal := thermalOpacityChanged.

Record State := {
  _thermalOpacity : spec_float;
  (** the [kThermalOpacity] key of [QSettings] *)
  settings_ThermalOpacity : option spec_float;
  emitted : list Signal
}.

(** The literals [0.0] and [100.0] as binary64 values.  A [double] is a
    [spec_float] in canonical form (53-bit mantissa), on which [SFltb],
    [SFleb] and [SFeqb] are the IEEE comparisons; the properties of
    Part II hold of every [spec_float]. *)
Definition d_0 : spec_float := S754_zero false.
Definition d_100 : spec_float := S754_finite false 7036874417766400 (-46).

(** [setThermalOpacity]: [<], [>] and [!=] are the IEEE comparisons. *)
Definition setThermalOpacity (val : spec_float) (s : State) : State :=
  let val := if SFltb val d_0 then d_0 else val in
  let val := if SFltb d_100 val then d_100 else val in
  if negb (SFeqb (_thermalOpacity s) val) then
    {| _thermalOpacity := val;
       settings_ThermalOpacity := Some val;
       emitted := emitted s ++ [thermalOpacityChanged] |}
  else s.

(** *** Vocabulary of the properties *)

(** [v] lies in the closed interval from [0.0] to [100.0]. *)
Definition in_range (v : spec_float) : bool := SFleb d_0 v && SFleb v d_100.

(** The value after the two clamping tests. *)
Definition clamped (val : spec_float) : spec_float :=
  let val := if SFltb val d_0 then d_0 else val in
  if SFltb d_100 val then d_100 else val.

End Thermal.

(* ================================================================== *)
(** ** Pairing, first run and the update dialog *)
(* ================================================================== *)

(** The fields of the class around the WiFi state of [Wifi]: the password
    in use, the scan timer, the tracked vehicle, and the first-run and
    update flags with their settings keys.  Signals of [Wifi.Signal] are
    recorded in the WiFi state, the others here. *)
Module Controller.

(** Compile-time configuration: that of [Wifi], and [__android__] and
    [__planner__]. *)
Record Build := {
  wifi_build : Wifi.Build;
  android : bool;
  planner : bool
}.

Inductive Signal :=
| isDefaultPwdChanged
| wifiConnectedChanged
| bindTimeout
| firstRunChanged
| ledFactChanged.

Inductive Slot :=
| slot_delayedBind
| slot_bindTimeout
| slot_restart.

(** Static Java methods called with arguments. *)
Inductive Call :=
| jni_disconnectWifi
| jni_bindSSID (ssid password : string) (flag : bool)
| jni_setWifiPassword (ssid password : string).

Record State := {
  wifi : Wifi.State;
  _password : string;
  _passwordSet : bool;
  (** [_scanTimer]: the interval it is running with, if it is active *)
  _scanTimer : option Z;
  (** the tracked [Vehicle*], by identity; [None] is [NULL] *)
  _vehicle : option Z;
  _vehicleInReadyState : bool;
  _firstRun : bool;
  _updateShown : bool;
  (** the [kFirstRun], [kSecondRun] and [kUpdateCheck] keys of [QSettings] *)
  settings_FirstRun : option bool;
  settings_SecondRun : option bool;
  settings_UpdateCheck : option Z;
  (** platform calls with their arguments, oldest first *)
  calls : list Call;
  (** pending single-shot timers: delay and slot *)
  timers : list (Z * Slot);
  (** signals emitted, oldest first *)
  emitted : list Signal
}.

Definition set_wifi (w : Wifi.State) (s : State) : State :=
  {| wifi := w; _password := _password s; _passwordSet := _passwordSet s;
     _scanTimer := _scanTimer s; _vehicle := _vehicle s;
     _vehicleInReadyState := _vehicleInReadyState s;
     _firstRun := _firstRun s; _updateShown := _updateShown s;
     settings_FirstRun := settings_FirstRun s;
     settings_SecondRun := settings_SecondRun s;
     settings_UpdateCheck := settings_UpdateCheck s; calls := calls s;
     timers := timers s; emitted := emitted s |}.

Definition set_password (p : string) (s : State) : State :=
  {| wifi := wifi s; _password := p; _passwordSet := _passwordSet s;
     _scanTimer := _scanTimer s; _vehicle := _vehicle s;
     _vehicleInReadyState := _vehicleInReadyState s;
     _firstRun := _firstRun s; _updateShown := _updateShown s;
     settings_FirstRun := settings_FirstRun s;
     settings_SecondRun := settings_SecondRun s;
     settings_UpdateCheck := settings_UpdateCheck s; calls := calls s;
     timers := timers s; emitted := emitted s |}.

Definition set_passwordSet (b : bool) (s : State) : State :=
  {| wifi := wifi s; _password := _password s; _passwordSet := b;
     _scanTimer := _scanTimer s; _vehicle := _vehicle s;
     _vehicleInReadyState := _vehicleInReadyState s;
     _firstRun := _firstRun s; _updateShown := _updateShown s;
     settings_FirstRun := settings_FirstRun s;
     settings_SecondRun := settings_SecondRun s;
     settings_UpdateCheck := settings_UpdateCheck s; calls := calls s;
     timers := timers s; emitted := emitted s |}.

Definition set_scanTimer (t : option Z) (s : State) : State :=
  {| wifi := wifi s; _password := _password s;
     _passwordSet := _passwordSet s; _scanTimer := t;
     _vehicle := _vehicle s;
     _vehicleInReadyState := _vehicleInReadyState s;
     _firstRun := _firstRun s; _updateShown := _updateShown s;
     settings_FirstRun := settings_FirstRun s;
     settings_SecondRun := settings_SecondRun s;
     settings_UpdateCheck := settings_UpdateCheck s; calls := calls s;
     timers := timers s; emitted := emitted s |}.

Definition set_vehicle (v : option Z) (s : State) : State :=
  {| wifi := wifi s; _password := _password s;
     _passwordSet := _passwordSet s; _scanTimer := _scanTimer s;
     _vehicle := v; _vehicleInReadyState := _vehicleInReadyState s;
     _firstRun := _firstRun s; _updateShown := _updateShown s;
     settings_FirstRun := settings_FirstRun s;
     settings_SecondRun := settings_SecondRun s;
     settings_UpdateCheck := settings_UpdateCheck s; calls := calls s;
     timers := timers s; emitted := emitted s |}.

Definition set_vehicleInReadyState (b : bool) (s : State) : State :=
  {| wifi := wifi s; _password := _password s;
     _passwordSet := _passwordSet s; _scanTimer := _scanTimer s;
     _vehicle := _vehicle s; _vehicleInReadyState := b;
     _firstRun := _firstRun s; _updateShown := _updateShown s;
     settings_FirstRun := settings_FirstRun s;
     settings_SecondRun := settings_SecondRun s;
     settings_UpdateCheck := settings_UpdateCheck s; calls := calls s;
     timers := timers s; emitted := emitted s |}.

Definition set_firstRun (b : bool) (s : State) : State :=
  {| wifi := wifi s; _password := _password s;
     _passwordSet := _passwordSet s; _scanTimer := _scanTimer s;
     _vehicle := _vehicle s;
     _vehicleInReadyState := _vehicleInReadyState s; _firstRun := b;
     _updateShown := _updateShown s;
     settings_FirstRun := settings_FirstRun s;
     settings_SecondRun := settings_SecondRun s;
     settings_UpdateCheck := settings_UpdateCheck s; calls := calls s;
     timers := timers s; emitted := emitted s |}.

Definition set_updateShown (b : bool) (s : State) : State :=
  {| wifi := wifi s; _password := _password s;
     _passwordSet := _passwordSet s; _scanTimer := _scanTimer s;
     _vehicle := _vehicle s;
     _vehicleInReadyState := _vehicleInReadyState s;
     _firstRun := _firstRun s; _updateShown := b;
     settings_FirstRun := settings_FirstRun s;
     settings_SecondRun := settings_SecondRun s;
     settings_UpdateCheck := settings_UpdateCheck s; calls := calls s;
     timers := timers s; emitted := emitted s |}.

Definition set_settings_FirstRun (v : option bool) (s : State) : State :=
  {| wifi := wifi s; _password := _password s;
     _passwordSet := _passwordSet s; _scanTimer := _scanTimer s;
     _vehicle := _vehicle s;
     _vehicleInReadyState := _vehicleInReadyState s;
     _firstRun := _firstRun s; _updateShown := _updateShown s;
     settings_FirstRun := v; settings_SecondRun := settings_SecondRun s;
     settings_UpdateCheck := settings_UpdateCheck s; calls := calls s;
     timers := timers s; emitted := emitted s |}.

Definition set_settings_SecondRun (v : option bool) (s : State) : State :=
  {| wifi := wifi s; _password := _password s;
     _passwordSet := _passwordSet s; _scanTimer := _scanTimer s;
     _vehicle := _vehicle s;
     _vehicleInReadyState := _vehicleInReadyState s;
     _firstRun := _firstRun s; _updateShown := _updateShown s;
     settings_FirstRun := settings_FirstRun s; settings_SecondRun := v;
     settings_UpdateCheck := settings_UpdateCheck s; calls := calls s;
     timers := timers s; emitted := emitted s |}.

Definition set_settings_UpdateCheck (v : option Z) (s : State) : State :=
  {| wifi := wifi s; _password := _password s;
     _passwordSet := _passwordSet s; _scanTimer := _scanTimer s;
     _vehicle := _vehicle s;
     _vehicleInReadyState := _vehicleInReadyState s;
     _firstRun := _firstRun s; _updateShown := _updateShown s;
     settings_FirstRun := settings_FirstRun s;
     settings_SecondRun := settings_SecondRun s;
     settings_UpdateCheck := v; calls := calls s; timers := timers s;
     emitted := emitted s |}.

Definition call (c : Call) (s : State) : State :=
  {| wifi := wifi s; _password := _password s;
     _passwordSet := _passwordSet s; _scanTimer := _scanTimer s;
     _vehicle := _vehicle s;
     _vehicleInReadyState := _vehicleInReadyState s;
     _firstRun := _firstRun s; _updateShown := _updateShown s;
     settings_FirstRun := settings_FirstRun s;
     settings_SecondRun := settings_SecondRun s;
     settings_UpdateCheck := settings_UpdateCheck s;
     calls := calls s ++ [c]; timers := timers s; emitted := emitted s |}.

Definition singleShot (t : Z * Slot) (s : State) : State :=
  {| wifi := wifi s; _password := _password s;
     _passwordSet := _passwordSet s; _scanTimer := _scanTimer s;
     _vehicle := _vehicle s;
     _vehicleInReadyState := _vehicleInReadyState s;
     _firstRun := _firstRun s; _updateShown := _updateShown s;
     settings_FirstRun := settings_FirstRun s;
     settings_SecondRun := settings_SecondRun s;
     settings_UpdateCheck := settings_UpdateCheck s; calls := calls s;
     timers := timers s ++ [t]; emitted := emitted s |}.

Definition emit (sig : Signal) (s : State) : State :=
  {| wifi := wifi s; _password := _password s;
     _passwordSet := _passwordSet s; _scanTimer := _scanTimer s;
     _vehicle := _vehicle s;
     _vehicleInReadyState := _vehicleInReadyState s;
     _firstRun := _firstRun s; _updateShown := _updateShown s;
     settings_FirstRun := settings_FirstRun s;
     settings_SecondRun := settings_SecondRun s;
     settings_UpdateCheck := settings_UpdateCheck s; calls := calls s;
     timers := timers s; emitted := emitted s ++ [sig] |}.

(** A step on the WiFi fields. *)
Definition on_wifi (f : Wifi.State -> Wifi.State) (s : State) : State :=
  set_wifi (f (wifi s)) s.

Definition set_ssid (name : string) (w : Wifi.State) : Wifi.State :=
  {| Wifi._ssidList := Wifi._ssidList w;
     Wifi._configurations := Wifi._configurations w;
     Wifi._ssid := name;
     Wifi._scanEnabled := Wifi._scanEnabled w;
     Wifi._scanningWiFi := Wifi._scanningWiFi w;
     Wifi._bindingWiFi := Wifi._bindingWiFi w;
     Wifi.settings_WifiConfig := Wifi.settings_WifiConfig w;
     Wifi.jni := Wifi.jni w; Wifi.timers := Wifi.timers w;
     Wifi.emitted := Wifi.emitted w |}.

(** *** Scanning *)

Definition stopScan (s : State) : State :=
  let s := set_scanTimer None s in
  let s := on_wifi (Wifi.set_scanEnabled false) s in
  let s := on_wifi (Wifi.set_scanningWiFi false) s in
  on_wifi (Wifi.emit Wifi.scanningWiFiChanged) s.

(** [_scanComplete]: the timer is made single-shot and started with
    2000 ms while scanning is enabled. *)
Definition _scanComplete (s : State) : State :=
  let s :=
    if Wifi._scanEnabled (wifi s) then set_scanTimer (Some 2000) s else s in
  let s := on_wifi (Wifi.set_scanningWiFi false) s in
  on_wifi (Wifi.emit Wifi.scanningWiFiChanged) s.

(** *** The credential map *)

Definition isWifiConfigured (name : string) (s : State) : bool :=
  bool_decide (is_Some (Wifi._configurations (wifi s) !! name)).

Definition isDefaultPwd (s : State) : bool :=
  if String.eqb (Wifi._ssid (wifi s)) "" then false
  else
    match Wifi._configurations (wifi s) !! Wifi._ssid (wifi s) with
    | Some pwd => String.eqb pwd "1234567890"
    | None => false
    end.

(** Whether a settings key names a subgroup: it has a [/] in it. *)
Fixpoint has_slash (key : string) : bool :=
  match key with
  | EmptyString => false
  | String c key' => Ascii.eqb c "/" || has_slash key'
  end.

(** [_loadWifiConfigurations]: every key [childKeys()] lists in the
    settings group (the keys that name no subgroup) is copied into
    [_configurations] with its value. *)
Definition _loadWifiConfigurations (s : State) : State :=
  on_wifi
    (fun w =>
       Wifi.set_configurations
         (map_fold
            (fun (key value : string) (m : gmap string string) =>
               if has_slash key then m else <[key := value]> m)
            (Wifi._configurations w) (Wifi.settings_WifiConfig w))
         w)
    s.

(** *** Binding *)

Definition bindWIFI (b : Build) (name password : string) (s : State)
  : State :=
  let s := stopScan s in
  let s := on_wifi Wifi._clearSSids s in
  let s := on_wifi (Wifi.emit Wifi.ssidListChanged) s in
  let s := on_wifi (Wifi.set_bindingWiFi true) s in
  let s := on_wifi (Wifi.emit Wifi.bindingWiFiChanged) s in
  let s := on_wifi (set_ssid name) s in
  let s := set_password password s in
  let s :=
    if String.eqb password "" then
      match Wifi._configurations (wifi s) !! name with
      | Some stored => set_password stored s
      | None => s
      end
    else set_passwordSet true s in
  if Wifi.androidx86 (wifi_build b) then
    let s := call jni_disconnectWifi s in
    singleShot (5000, slot_delayedBind) s
  else s.

Definition _delayedBind (b : Build) (s : State) : State :=
  if Wifi.androidx86 (wifi_build b) then
    let s := call (jni_bindSSID (Wifi._ssid (wifi s)) (_password s) true) s in
    singleShot (15000, slot_bindTimeout) s
  else s.

Definition _bindTimeout (b : Build) (s : State) : State :=
  if Wifi._bindingWiFi (wifi s) then
    let s := on_wifi (Wifi.set_bindingWiFi false) s in
    let s := on_wifi (Wifi.emit Wifi.bindingWiFiChanged) s in
    let s := emit bindTimeout s in
    on_wifi
      (Wifi.startScan (wifi_build b) (Wifi.startScan_default (wifi_build b)))
      s
  else s.

Definition _wifiConnected (s : State) : State :=
  let s :=
    on_wifi
      (fun w =>
         Wifi.set_configurations
           (<[Wifi._ssid w := _password s]> (Wifi._configurations w)) w)
      s in
  let s := on_wifi Wifi._saveWifiConfigurations s in
  let s := on_wifi (Wifi.set_bindingWiFi false) s in
  let s := emit isDefaultPwdChanged s in
  let s := on_wifi (Wifi.emit Wifi.bindingWiFiChanged) s in
  let s := on_wifi (Wifi.emit Wifi.connectedSSIDChanged) s in
  emit wifiConnectedChanged s.

(** [_authenticationError], on this state. *)
Definition _authenticationError (b : Build) (s : State) : State :=
  on_wifi (Wifi._authenticationError (wifi_build b)) s.

(** *** First run and the WiFi password *)

Definition _resetFirstRun (skipSecond : bool) (s : State) : State :=
  let s := set_firstRun false s in
  let s := set_settings_FirstRun (Some false) s in
  let s := if negb skipSecond then set_settings_SecondRun (Some true) s
           else s in
  emit firstRunChanged s.

Definition setWiFiPassword (b : Build) (pwd : string) (restart : bool)
    (s : State) : State :=
  match _vehicle s with
  | Some _ =>
      let s := set_password pwd s in
      let s :=
        on_wifi
          (fun w =>
             Wifi.set_configurations
               (<[Wifi._ssid w := _password s]> (Wifi._configurations w)) w)
          s in
      let s := on_wifi Wifi._saveWifiConfigurations s in
      let s :=
        if android b then
          call (jni_setWifiPassword (Wifi._ssid (wifi s)) (_password s)) s
        else s in
      let s := _resetFirstRun false s in
      if restart && Wifi.androidx86 (wifi_build b) then
        singleShot (500, slot_restart) s
      else s
  | None => s
  end.

(** *** The tracked vehicle *)

Definition _vehicleAdded (b : Build) (vehicle : Z) (s : State) : State :=
  let s :=
    match _vehicle s with
    | None => set_vehicle (Some vehicle) s
    | Some _ => s
    end in
  if negb (planner b) && negb (_passwordSet s) then _resetFirstRun true s
  else s.

Definition _vehicleRemoved (vehicle : Z) (s : State) : State :=
  match _vehicle s with
  | Some v =>
      if v =? vehicle then
        set_vehicleInReadyState false (set_vehicle None s)
      else s
  | None => s
  end.

Definition _vehicleReady (ready : bool) (s : State) : State :=
  let s := set_vehicleInReadyState ready s in
  match _vehicle s with
  | Some _ => if ready then emit ledFactChanged s else s
  | None => s
  end.

(** *** [shouldWeShowUpdate] *)

(** The custom firmware version numbers of a vehicle ([int] each). *)
Record FirmwareVersion := { major : Z; minor : Z; patch : Z }.

(** What [shouldWeShowUpdate] reads of the platform: today's date as a
    day number, the year of a date, whether the map engine sees the
    Internet, and the firmware version of the active vehicle, if there is
    one. *)
Record Env := {
  currentDate : Z;
  year : Z -> Z;
  internetActive : bool;
  activeVehicle : option FirmwareVersion
}.

Definition FIRMWARE_FORCE_UPDATE_MAJOR : Z := 1.
Definition FIRMWARE_FORCE_UPDATE_MINOR : Z := 1.
Definition FIRMWARE_FORCE_UPDATE_PATCH : Z := 0.

(** [major << 16 | minor << 8 | patch], computed on [int] and stored in a
    [uint32_t]. *)
Definition pack_version (major minor patch : Z) : Z :=
  Z.lor (Z.lor (Z.shiftl major 16) (Z.shiftl minor 8)) patch mod 2 ^ 32.

Definition frver : Z :=
  pack_version FIRMWARE_FORCE_UPDATE_MAJOR FIRMWARE_FORCE_UPDATE_MINOR
    FIRMWARE_FORCE_UPDATE_PATCH.

(** The first part: the run after the password was set, or the days
    without Internet. *)
Definition check_dates (env : Env) (s : State) : bool * State :=
  let secondRun := default true (settings_SecondRun s) in
  let lastCheck := default (currentDate env) (settings_UpdateCheck s) in
  let now := currentDate env in
  if secondRun then
    let s := set_settings_SecondRun (Some false) s in
    if negb (year env lastCheck =? year env now) then
      (true, set_settings_UpdateCheck (Some (currentDate env)) s)
    else (false, s)
  else if internetActive env then
    (false, set_settings_UpdateCheck (Some (currentDate env)) s)
  else if now - lastCheck >? 29 then
    (true, set_settings_UpdateCheck (Some (currentDate env)) s)
  else (false, s).

(** The second part: the firmware version of the active vehicle. *)
Definition check_firmware (env : Env) (s : State) : bool * State :=
  match activeVehicle env with
  | Some v =>
      let fmver := pack_version (major v) (minor v) (patch v) in
      if negb (fmver =? 0) && (frver >=? fmver) then
        (true, set_settings_UpdateCheck (Some (currentDate env)) s)
      else (false, s)
  | None => (false, s)
  end.

Definition shouldWeShowUpdate (env : Env) (s : State) : bool * State :=
  if _firstRun s || _updateShown s then (false, s)
  else
    let '(res, s) := check_dates env s in
    let '(res, s) := if negb res then check_firmware env s else (res, s) in
    (res, set_updateShown res s).

(** *** The connected network *)

(** The double quote character. *)
Definition quote : ascii := "034"%char.

Fixpoint endsWith_quote (s : string) : bool :=
  match s with
  | EmptyString => false
  | String c EmptyString => Ascii.eqb c quote
  | String _ s' => endsWith_quote s'
  end.

(** [ssid.remove(ssid.size()-1, 1)]. *)
Fixpoint remove_last (s : string) : string :=
  match s with
  | EmptyString => EmptyString
  | String _ EmptyString => EmptyString
  | String c s' => String c (remove_last s')
  end.

(** [connectedSSID], from the string the platform returns: one leading
    and one trailing double quote are dropped.  Other builds return a
    fixed name. *)
Definition connectedSSID (b : Build) (platform : string) : string :=
  if Wifi.androidx86 (wifi_build b) then
    let ssid := platform in
    let ssid :=
      match ssid with
      | String c rest => if Ascii.eqb c quote then rest else ssid
      | EmptyString => ssid
      end in
    if endsWith_quote ssid then remove_last ssid else ssid
  else "CGOET CIA Headquarters".

Definition connectedCamera (ssid : string) : string :=
  if String.prefix "CGOET" ssid then "CGO-ET"
  else if String.prefix "E10T" ssid then "E10T"
  else if String.prefix "E90" ssid then "E90"
  else if String.prefix "E50" ssid then "E50"
  else "".

Definition isTyphoon (ssid : string) : bool :=
  if String.prefix "CGOET" ssid || String.prefix "E10T" ssid
     || String.prefix "E90_" ssid || String.prefix "E50_" ssid
  then true else false.

(** *** The constructor *)

(** What the constructor reads: the settings as an earlier session,
    ending in state [last], left them, and the network name [platform]
    the platform reports.  The fields start as the initializer list
    gives them; then [_firstRun] is read from the settings, the
    credential map is loaded, and [_ssid] is set to the connected
    network. *)
Definition constructor (b : Build) (platform : string) (last : State)
  : State :=
  let s :=
    {| wifi := {| Wifi._ssidList := []; Wifi._configurations := ∅;
                  Wifi._ssid := "";
                  Wifi._scanEnabled := false; Wifi._scanningWiFi := false;
                  Wifi._bindingWiFi := false;
                  Wifi.settings_WifiConfig :=
                    Wifi.settings_WifiConfig (wifi last);
                  Wifi.jni := []; Wifi.timers := []; Wifi.emitted := [] |};
       _password := ""; _passwordSet := false; _scanTimer := None;
       _vehicle := None; _vehicleInReadyState := false;
       _firstRun := true; _updateShown := false;
       settings_FirstRun := settings_FirstRun last;
       settings_SecondRun := settings_SecondRun last;
       settings_UpdateCheck := settings_UpdateCheck last;
       calls := []; timers := []; emitted := [] |} in
  let s := set_firstRun (default true (settings_FirstRun s)) s in
  let s := _loadWifiConfigurations s in
  on_wifi (set_ssid (connectedSSID b platform)) s.

(** *** Vocabulary of the properties *)


End Controller.

(* ================================================================== *)
(** ** Distance sensor, obstacle switch and raw channels *)
(* ================================================================== *)

Module Sensors.

Inductive Signal :=
| distSensorMinChanged
| distSensorMaxChanged
| distSensorCurChanged
| obsStateChanged.

Record State := {
  _distSensorMin : Z;
  _distSensorMax : Z;
  _distSensorCur : Z;
  _obsState : bool;
  emitted : list Signal
}.

Definition set_distSensorMin (v : Z) (s : State) : State :=
  {| _distSensorMin := v; _distSensorMax := _distSensorMax s;
     _distSensorCur := _distSensorCur s; _obsState := _obsState s;
     emitted := emitted s |}.

Definition set_distSensorMax (v : Z) (s : State) : State :=
  {| _distSensorMin := _distSensorMin s; _distSensorMax := v;
     _distSensorCur := _distSensorCur s; _obsState := _obsState s;
     emitted := emitted s |}.

Definition set_distSensorCur (v : Z) (s : State) : State :=
  {| _distSensorMin := _distSensorMin s; _distSensorMax := _distSensorMax s;
     _distSensorCur := v; _obsState := _obsState s;
     emitted := emitted s |}.

Definition set_obsState (b : bool) (s : State) : State :=
  {| _distSensorMin := _distSensorMin s; _distSensorMax := _distSensorMax s;
     _distSensorCur := _distSensorCur s; _obsState := b;
     emitted := emitted s |}.

Definition emit (sig : Signal) (s : State) : State :=
  {| _distSensorMin := _distSensorMin s; _distSensorMax := _distSensorMax s;
     _distSensorCur := _distSensorCur s; _obsState := _obsState s;
     emitted := emitted s ++ [sig] |}.

Definition _distanceSensor (minDist maxDist curDist : Z) (s : State) : State :=
  let s :=
    if negb (_distSensorMin s =? minDist) then
      emit distSensorMinChanged (set_distSensorMin minDist s)
    else s in
  let s :=
    if negb (_distSensorMax s =? maxDist) then
      emit distSensorMaxChanged (set_distSensorMax maxDist s)
    else s in
  if negb (_distSensorCur s =? curDist) then
    emit distSensorCurChanged (set_distSensorCur curDist s)
  else s.

(** The switch identifiers and states of the controller library, as far
    as the code names them. *)
Inductive SwitchId :=
| OBSTACLE_AVOIDANCE
| other_switch (id : nat).

Inductive SwitchState :=
| ON
| other_state (state : nat).

Definition is_obstacle (switchId : SwitchId) : bool :=
  match switchId with OBSTACLE_AVOIDANCE => true | other_switch _ => false end.

Definition is_on (switchState : SwitchState) : bool :=
  match switchState with ON => true | other_state _ => false end.

Definition _switchStateChanged (switchId : SwitchId)
    (switchState : SwitchState) (s : State) : State :=
  if is_obstacle switchId then
    if is_on switchState && negb (_obsState s) then
      emit obsStateChanged (set_obsState true s)
    else if _obsState s then
      emit obsStateChanged (set_obsState false s)
    else s
  else s.




End Sensors.

(* ================================================================== *)
(** ** System image update *)
(* ================================================================== *)

Module Update.

Inductive Signal :=
| updateErrorChanged
| updateProgressChanged
| updatingChanged.

Inductive Slot := slot_startCopy.

Record State := {
  _updateError : string;
  _updateProgress : Z;
  _updateDone : bool;
  (** the copier object with its source and destination; [None] is [NULL] *)
  _pFileCopy : option (string * string);
  jni : list string;
  timers : list (Z * Slot);
  emitted : list Signal
}.

Definition set_updateError (m : string) (s : State) : State :=
  {| _updateError := m; _updateProgress := _updateProgress s;
     _updateDone := _updateDone s; _pFileCopy := _pFileCopy s;
     jni := jni s; timers := timers s; emitted := emitted s |}.

Definition set_updateProgress (p : Z) (s : State) : State :=
  {| _updateError := _updateError s; _updateProgress := p;
     _updateDone := _updateDone s; _pFileCopy := _pFileCopy s;
     jni := jni s; timers := timers s; emitted := emitted s |}.

Definition set_updateDone (b : bool) (s : State) : State :=
  {| _updateError := _updateError s; _updateProgress := _updateProgress s;
     _updateDone := b; _pFileCopy := _pFileCopy s;
     jni := jni s; timers := timers s; emitted := emitted s |}.

Definition set_pFileCopy (c : option (string * string)) (s : State) : State :=
  {| _updateError := _updateError s; _updateProgress := _updateProgress s;
     _updateDone := _updateDone s; _pFileCopy := c;
     jni := jni s; timers := timers s; emitted := emitted s |}.

Definition call_jni (method : string) (s : State) : State :=
  {| _updateError := _updateError s; _updateProgress := _updateProgress s;
     _updateDone := _updateDone s; _pFileCopy := _pFileCopy s;
     jni := jni s ++ [method]; timers := timers s; emitted := emitted s |}.

Definition singleShot (delay : Z) (slot : Slot) (s : State) : State :=
  {| _updateError := _updateError s; _updateProgress := _updateProgress s;
     _updateDone := _updateDone s; _pFileCopy := _pFileCopy s;
     jni := jni s; timers := timers s ++ [(delay, slot)];
     emitted := emitted s |}.

Definition emit (sig : Signal) (s : State) : State :=
  {| _updateError := _updateError s; _updateProgress := _updateProgress s;
     _updateDone := _updateDone s; _pFileCopy := _pFileCopy s;
     jni := jni s; timers := timers s; emitted := emitted s ++ [sig] |}.

Definition kUpdateFile : string := "/storage/sdcard1/update.zip".
Definition kUpdateDest : string := "/mnt/sdcard/update.zip".

Definition checkForUpdate (androidx86 : bool)
    (fs : gmap string (list Byte.byte)) : bool :=
  if androidx86 then bool_decide (is_Some (fs !! kUpdateFile)) else false.

Definition _imageUpdateProgress (current : Z) (s : State) : State :=
  emit updateProgressChanged (set_updateProgress current s).

Definition _endCopyThread (s : State) : State :=
  match _pFileCopy s with
  | Some _ => emit updatingChanged (set_pFileCopy None s)
  | None => s
  end.

Definition _imageUpdateError (errorMsg : string) (s : State) : State :=
  let s := set_updateError errorMsg s in
  let s := emit updateErrorChanged s in
  _endCopyThread s.

Definition _imageUpdateDone (androidx86 : bool) (s : State) : State :=
  if androidx86 then call_jni "updateImage" (_endCopyThread s) else s.

Definition updateSystemImage (androidx86 : bool)
    (fs : gmap string (list Byte.byte)) (s : State) : State :=
  if androidx86 then
    let s := set_updateError "" s in
    let s := set_updateProgress 0 s in
    let s := set_updateDone false s in
    let s := emit updateErrorChanged s in
    let s := emit updateProgressChanged s in
    if checkForUpdate androidx86 fs then
      let s := set_pFileCopy (Some (kUpdateFile, kUpdateDest)) s in
      let s := emit updatingChanged s in
      singleShot 100 slot_startCopy s
    else _imageUpdateError "Could not locate update file." s
  else s.

(** The three connections [updateSystemImage] makes from the copier. *)
Definition deliver (androidx86 : bool) (sig : FileCopy.Signal) (s : State)
  : State :=
  match sig with
  | FileCopy.copyProgress current => _imageUpdateProgress current s
  | FileCopy.copyError errorMsg => _imageUpdateError errorMsg s
  | FileCopy.copyDone => _imageUpdateDone androidx86 s
  end.

(** The timer armed by [updateSystemImage] fires: the copier runs
    [startCopy] and its signals reach the slots in the order sent. *)
Definition copy_thread (androidx86 : bool) (env : FileCopy.Env)
    (fs : gmap string (list Byte.byte)) (s : State)
  : option (gmap string (list Byte.byte) * State) :=
  match _pFileCopy s with
  | Some (_src, _dst) =>
      match FileCopy.startCopy _src _dst env fs with
      | Some r =>
          Some (FileCopy.files r,
                fold_left (fun s sig => deliver androidx86 sig s)
                  (FileCopy.signals r) s)
      | None => None
      end
  | None => Some (fs, s)
  end.

(** [updateSystemImage] and, when it armed the timer, the copy. *)
Definition update_run (androidx86 : bool) (env : FileCopy.Env)
    (fs : gmap string (list Byte.byte)) (s : State)
  : option (gmap string (list Byte.byte) * State) :=
  copy_thread androidx86 env fs (updateSystemImage androidx86 fs s).

End Update.

(* ================================================================== *)
(** ** Media selection *)
(* ================================================================== *)

(** The selection functions, on the state of [Media].  Items are reached
    through their position in [_mediaList]. *)
Module MediaSelect.
Import Media.

(** [TyphoonMediaItem::setSelected] on the item at position [i]: a change
    of the flag moves [_selectedCount] of the parent by one.  (The item's
    own [selectedChanged] is not a signal of the interface.) *)
Definition setSelected (i : nat) (sel : bool) (s : State) : State :=
  match _mediaList s !! i with
  | Some item =>
      if negb (Bool.eqb (selected item) sel) then
        let s :=
          set_mediaList
            (<[i := {| fileName := fileName item; selected := sel |}]>
               (_mediaList s)) s in
        let s :=
          if sel then set_selectedCount (_selectedCount s + 1) s
          else set_selectedCount (_selectedCount s - 1) s in
        emit selectedCountChanged s
      else s
  | None => s
  end.

Definition selectAllMedia (sel : bool) (s : State) : State :=
  fold_left (fun s i => setSelected i sel s)
    (seq 0 (length (_mediaList s))) s.

(** The first loop of [deleteSelectedMedia] at position [i]. *)
Definition collect (i : nat) (acc : list string * State)
  : list string * State :=
  let '(toDelete, s) := acc in
  match _mediaList s !! i with
  | Some item =>
      if selected item then
        (toDelete ++ [fileName item], setSelected i false s)
      else (toDelete, s)
  | None => (toDelete, s)
  end.

(** [QFile::remove] of [name] in directory [dir]; [removable] tells
    whether the platform lets the file at a path go. *)
Definition QFile_remove (removable : string -> bool) (dir name : string)
    (env : Env) : Env :=
  if removable (dir ++ "/" ++ name)%string then
    {| savePath := savePath env;
       YUNEEC_VIDEO_EXTENSION := YUNEEC_VIDEO_EXTENSION env;
       dir_entries := fun p =>
         if String.eqb p dir then
           List.filter (fun e => negb (String.eqb (Media.name e) name))
             (dir_entries env p)
         else dir_entries env p |}
  else env.

Definition deleteSelectedMedia (removable : string -> bool) (env : Env)
    (s : State) : Env * State :=
  let '(toDelete, s) :=
    fold_left (fun acc i => collect i acc)
      (seq 0 (length (_mediaList s))) ([], s) in
  let env :=
    fold_left (fun env fileName =>
                 QFile_remove removable (photoPath env s) fileName env)
      toDelete env in
  (env, refreshMeadiaList env s).

(** *** Vocabulary of the properties *)

(** The number of selected items of a list. *)
Definition selected_count (l : list TyphoonMediaItem) : Z :=
  Z.of_nat (length (List.filter selected l)).

(** [_selectedCount] counts the selected items of [_mediaList]. *)
Definition count_inv (s : State) : Prop :=
  _selectedCount s = selected_count (_mediaList s).

(** An item with its flag set to [sel], and the list with that done at
    position [i]. *)
Definition with_flag (sel : bool) (item : TyphoonMediaItem)
  : TyphoonMediaItem :=
  {| fileName := fileName item; selected := sel |}.

Definition set_flag (i : nat) (sel : bool) (l : list TyphoonMediaItem)
  : list TyphoonMediaItem :=
  match l !! i with
  | Some item => <[i := with_flag sel item]> l
  | None => l
  end.

(** The file names of the selected items, in list order. *)
Definition selected_names (s : State) : list string :=
  map fileName (List.filter selected (_mediaList s)).

End MediaSelect.

(* ################################################################## *)
(** * Part II: properties *)
(* ################################################################## *)

(* ================================================================== *)
(** ** [std_sort] returns an ordered permutation *)
(* ================================================================== *)

Section SortFacts.
Import StdSort.
Context {A : Type} (comp : A -> A -> bool).

Lemma insert_perm (x : A) (l : list A) :
  Permutation (x :: l) (insert comp x l).
Proof.
  induction l as [|y l IH]; simpl; [reflexivity|].
  destruct (comp x y); [reflexivity|].
  rewrite perm_swap. now apply perm_skip.
Qed.

Lemma std_sort_perm (l : list A) : Permutation l (std_sort comp l).
Proof.
  induction l as [|x l IH]; simpl; [constructor|].
  etransitivity; [apply perm_skip, IH | apply insert_perm].
Qed.

Lemma std_sort_length (l : list A) : length (std_sort comp l) = length l.
Proof. symmetry. apply Permutation_length, std_sort_perm. Qed.

Lemma Sorted_adjacent (l : list A) :
  Sorted (in_order comp) l -> adjacent_ordered comp l.
Proof.
  induction 1 as [|a l Hs IH Hhd]; intros i x y Hx Hy.
  - now rewrite lookup_nil in Hx.
  - destruct i as [|i]; simpl in *.
    + inversion Hx; subst x. destruct l as [|b l]; [discriminate|].
      simpl in Hy. inversion Hy; subst. now inversion Hhd.
    + eapply IH; eassumption.
Qed.

(** [comp] is a strict ordering: it never orders two elements both ways
    (part of what [std::sort] requires of its comparator). *)
Hypothesis comp_asym : forall x y, comp x y = true -> comp y x = false.

Lemma insert_hd (x y : A) (l : list A) :
  in_order comp y x -> HdRel (in_order comp) y l ->
  HdRel (in_order comp) y (insert comp x l).
Proof.
  intros Hyx Hhd. destruct l as [|z l]; simpl.
  - now constructor.
  - destruct (comp x z); constructor; [assumption|now inversion Hhd].
Qed.

Lemma insert_sorted (x : A) (l : list A) :
  Sorted (in_order comp) l -> Sorted (in_order comp) (insert comp x l).
Proof.
  induction 1 as [|y l Hs IH Hhd]; simpl.
  - repeat constructor.
  - destruct (comp x y) eqn:E.
    + constructor; [now constructor|]. constructor. now apply comp_asym.
    + constructor; [assumption|]. now apply insert_hd.
Qed.

Lemma std_sort_sorted (l : list A) : Sorted (in_order comp) (std_sort comp l).
Proof.
  induction l as [|x l IH]; simpl; [constructor|]. now apply insert_sorted.
Qed.

Lemma std_sort_adjacent (l : list A) : adjacent_ordered comp (std_sort comp l).
Proof. apply Sorted_adjacent, std_sort_sorted. Qed.

(** When "not before" is transitive, the order holds between any two
    positions, so between a prefix and the rest. *)
Lemma std_sort_split (l front back : list A) :
  (forall x y z, in_order comp x y -> in_order comp y z -> in_order comp x z) ->
  std_sort comp l = front ++ back ->
  forall a b, List.In a front -> List.In b back -> in_order comp a b.
Proof.
  intros Htrans Hsplit.
  assert (Hs : StronglySorted (in_order comp) (front ++ back)).
  { rewrite <- Hsplit. apply Sorted_StronglySorted; [exact Htrans|].
    apply std_sort_sorted. }
  clear Hsplit. induction front as [|x front IH]; intros a b Ha Hb;
    [destruct Ha|].
  simpl in Hs. apply StronglySorted_inv in Hs. destruct Hs as [Hs Hall].
  destruct Ha as [<-|Ha]; [|now apply IH].
  rewrite List.Forall_forall in Hall. apply Hall.
  apply List.in_or_app. now right.
Qed.

End SortFacts.

(* ================================================================== *)
(** ** The WiFi scan list *)
(* ================================================================== *)

Section WifiFacts.
Import StdSort Wifi.

Lemma compareRSSI_asym (x y : TyphoonSSIDItem) :
  compareRSSI x y = true -> compareRSSI y x = false.
Proof. unfold compareRSSI. lia. Qed.

Lemma compareRSSI_descending (l : list TyphoonSSIDItem) :
  adjacent_ordered compareRSSI l -> descending_rssi l.
Proof.
  intros H i a b Ha Hb. specialize (H i a b Ha Hb).
  unfold in_order, compareRSSI in H. lia.
Qed.

Lemma findSsid_ssids (name : string) (r : Z) (l : list TyphoonSSIDItem) :
  ssids (_findSsid name r l).2 = ssids l.
Proof.
  induction l as [|s l IH]; simpl; [reflexivity|].
  destruct (String.eqb (ssid s) name); simpl; [reflexivity|].
  destruct (_findSsid name r l) as [found l']. simpl in *. now rewrite IH.
Qed.

Lemma findSsid_None (name : string) (r : Z) (l : list TyphoonSSIDItem) :
  (_findSsid name r l).1 = None ->
  ~ List.In name (ssids l) /\ (_findSsid name r l).2 = l.
Proof.
  induction l as [|s l IH]; simpl; [tauto|].
  destruct (String.eqb (ssid s) name) eqn:E; simpl; [discriminate|].
  destruct (_findSsid name r l) as [found l']. simpl in *.
  intros ->. destruct (IH eq_refl) as [Hn ->]. split; [|reflexivity].
  intros [Heq|Hin]; [|tauto].
  apply String.eqb_neq in E. congruence.
Qed.

Lemma findSsid_Some (name : string) (r : Z) (l : list TyphoonSSIDItem) :
  List.In name (ssids l) -> exists s, (_findSsid name r l).1 = Some s.
Proof.
  induction l as [|s l IH]; simpl; [tauto|].
  destruct (String.eqb (ssid s) name) eqn:E; simpl; [eauto|].
  intros [Heq|Hin]; [apply String.eqb_neq in E; congruence|].
  destruct (IH Hin) as [s' Hs']. destruct (_findSsid name r l). simpl in *.
  eauto.
Qed.

(** With distinct SSIDs, every entry named [name] carries the reported
    strength after [_findSsid]. *)
Lemma findSsid_rssi (name : string) (r : Z) (l : list TyphoonSSIDItem) :
  List.NoDup (ssids l) ->
  forall s, List.In s (_findSsid name r l).2 -> ssid s = name -> rssi s = r.
Proof.
  induction l as [|s0 l IH]; simpl; [tauto|].
  intros Hnd s. apply List.NoDup_cons_iff in Hnd. destruct Hnd as [Hni Hnd].
  destruct (String.eqb (ssid s0) name) eqn:E; simpl.
  - apply String.eqb_eq in E. intros [<-|Hin] Hs; [reflexivity|].
    exfalso. apply Hni. unfold ssids. rewrite E, <- Hs. now apply List.in_map.
  - specialize (IH Hnd). destruct (_findSsid name r l) as [found l'].
    simpl in *. intros [<-|Hin] Hs.
    + apply String.eqb_neq in E. congruence.
    + now apply IH.
Qed.

Lemma newSSID_inv (b : Build) (name : string) (r : Z) (s : State) :
  scan_inv b (_ssidList s) -> scan_inv b (_ssidList (_newSSID b name r s)).
Proof.
  intros [Hnd Hacc]. unfold _newSSID. fold (accepted b name).
  destruct (accepted b name) eqn:Ea; [|now split].
  destruct (_findSsid name r (_ssidList s)) as [[found|] l] eqn:Ef.
  - simpl. pose proof (findSsid_ssids name r (_ssidList s)) as Hs.
    rewrite Ef in Hs. simpl in Hs. unfold scan_inv. rewrite Hs. now split.
  - simpl. destruct (findSsid_None name r (_ssidList s)) as [Hni Hl];
      [now rewrite Ef|].
    rewrite Ef in Hl. simpl in Hl. subst l.
    assert (Hp : Permutation (ssids (_ssidList s) ++ [name])
                   (ssids (std_sort compareRSSI
                             (_ssidList s ++ [{| ssid := name; rssi := r |}])))).
    { unfold ssids. rewrite <- (std_sort_perm compareRSSI).
      now rewrite List.map_app. }
    split.
    + eapply Permutation_NoDup; [exact Hp|].
      apply List.NoDup_app; repeat split;
        [assumption | repeat constructor; simpl; tauto |].
      intros x Hx [<-|[]]. contradiction.
    + intros x Hx. eapply Permutation_in in Hx; [|symmetry; exact Hp].
      apply List.in_app_iff in Hx. destruct Hx as [Hx|[<-|[]]]; auto.
Qed.

Lemma newSSIDs_inv (b : Build) (reports : list (string * Z)) (s : State) :
  scan_inv b (_ssidList s) -> scan_inv b (_ssidList (newSSIDs b reports s)).
Proof.
  revert s. induction reports as [|[name r] reports IH]; intros s H;
    [exact H|].
  simpl. apply IH. now apply newSSID_inv.
Qed.

End WifiFacts.

Section WifiProperties.
Import StdSort Wifi.

(** The desktop debug build fills the list with eight made-up networks,
    strongest first; a desktop release build filters all of them out. *)
Example startScan_desktop (s : State) :
  map rssi (_ssidList
              (startScan {| androidx86 := false; qt_debug := true;
                            startScan_default := 0 |} 0 s))
  = [0; -10; -20; -30; -40; -50; -60; -90] /\
  _ssidList (startScan {| androidx86 := false; qt_debug := false;
                          startScan_default := 0 |} 0 s) = [].
Proof. split; reflexivity. Qed.

Lemma newSSID_frame (b : Build) (name : string) (r : Z) (s : State) :
  let s' := _newSSID b name r s in
  _configurations s' = _configurations s /\ _ssid s' = _ssid s /\
  _scanEnabled s' = _scanEnabled s /\ _scanningWiFi s' = _scanningWiFi s /\
  _bindingWiFi s' = _bindingWiFi s /\
  settings_WifiConfig s' = settings_WifiConfig s /\
  jni s' = jni s /\ timers s' = timers s.
Proof.
  unfold _newSSID. destruct (qt_debug b || typhoon_prefix name); [|tauto].
  destruct (_findSsid name r (_ssidList s)) as [[found|] l]; simpl; tauto.
Qed.

Lemma startScan_inv (b : Build) (delay : Z) (s : State) :
  scan_inv b (_ssidList (startScan b delay s)).
Proof.
  assert (H0 : scan_inv b []) by (split; [constructor|intros ? []]).
  unfold startScan.
  destruct (androidx86 b).
  - destruct (negb (delay =? 0)); [exact H0|].
    unfold _scanWifi. destruct (androidx86 b); exact H0.
  - repeat apply newSSID_inv. exact H0.
Qed.

Lemma startScan_frame (b : Build) (delay : Z) (s : State) :
  let s' := startScan b delay s in
  _configurations s' = _configurations s /\ _ssid s' = _ssid s /\
  _bindingWiFi s' = _bindingWiFi s /\
  settings_WifiConfig s' = settings_WifiConfig s /\
  _scanEnabled s' = true.
Proof.
  unfold startScan. destruct (androidx86 b) eqn:Ea.
  - destruct (negb (delay =? 0)); simpl; [tauto|].
    unfold _scanWifi. rewrite Ea. simpl. tauto.
  - repeat match goal with
      | |- context [_newSSID b ?n ?r ?s] =>
          let H := fresh in
          pose proof (newSSID_frame b n r s) as H; simpl in H;
          destruct H as (-> & -> & -> & _ & -> & -> & _)
      end.
    simpl. tauto.
Qed.

Lemma save_persisted (s : State) :
  persisted (_configurations s)
    (settings_WifiConfig (_saveWifiConfigurations s)).
Proof.
  unfold _saveWifiConfigurations, persisted. simpl.
  apply (map_fold_weak_ind
           (fun (group m : gmap string string) =>
              forall key, group !! key
                          = if String.eqb key "" then None else m !! key)).
  - intros key. rewrite !lookup_empty. now destruct (String.eqb key "").
  - intros i x m group Hi IH key.
    destruct (String.eqb i "") eqn:Ei; simpl.
    + rewrite IH. destruct (String.eqb key "") eqn:Ek; [reflexivity|].
      rewrite lookup_insert_ne; [reflexivity|].
      apply String.eqb_eq in Ei. apply String.eqb_neq in Ek. congruence.
    + destruct (decide (i = key)) as [->|Hne].
      * rewrite !lookup_insert_eq. now rewrite Ei.
      * rewrite !lookup_insert_ne by assumption. apply IH.
Qed.

(** C8.  From the list [startScan] leaves, any run of [_newSSID] calls
    keeps the SSID strings of [_ssidList] pairwise distinct; and a report
    whose SSID is already listed appends nothing: the SSIDs of the list
    stay as they are, and the entry of that SSID carries the reported
    signal strength. *)
Theorem ssid_list_unique (b : Build) (delay : Z) (reports : list (string * Z))
    (s : State) :
  let scanned := newSSIDs b reports (startScan b delay s) in
  List.NoDup (ssids (_ssidList scanned)) /\
  forall (name : string) (r : Z),
    List.In name (ssids (_ssidList scanned)) ->
    let updated := _newSSID b name r scanned in
    ssids (_ssidList updated) = ssids (_ssidList scanned) /\
    length (_ssidList updated) = length (_ssidList scanned) /\
    List.NoDup (ssids (_ssidList updated)) /\
    (forall item, List.In item (_ssidList updated) ->
                  ssid item = name -> rssi item = r).
Proof.
  intros scanned.
  assert (Hinv : scan_inv b (_ssidList scanned))
    by apply newSSIDs_inv, startScan_inv.
  split; [apply Hinv|]. intros name r Hin updated.
  assert (Hs : ssids (_ssidList updated) = ssids (_ssidList scanned)
               /\ forall item, List.In item (_ssidList updated) ->
                               ssid item = name -> rssi item = r).
  { subst updated. unfold _newSSID. fold (accepted b name).
    destruct Hinv as [Hnd Hacc]. rewrite (Hacc name Hin).
    destruct (findSsid_Some name r _ Hin) as [found Hf].
    pose proof (findSsid_ssids name r (_ssidList scanned)) as Hss.
    pose proof (findSsid_rssi name r (_ssidList scanned) Hnd) as Hr.
    destruct (_findSsid name r (_ssidList scanned)) as [o l].
    simpl in Hf. subst o. simpl in *. split; assumption. }
  destruct Hs as [Hs Hr]. repeat split; try assumption.
  - unfold ssids in Hs. apply (f_equal (@length string)) in Hs.
    now rewrite !List.length_map in Hs.
  - rewrite Hs. apply Hinv.
Qed.

(** The theorem at a scan of two cameras, one reported again. *)
Lemma ssid_list_unique_witness :
  let b := {| androidx86 := true; qt_debug := false; startScan_default := 0 |} in
  let s := {| _ssidList := []; _configurations := ∅; _ssid := "";
              _scanEnabled := false; _scanningWiFi := false;
              _bindingWiFi := false; settings_WifiConfig := ∅; jni := [];
              timers := []; emitted := [] |} in
  let reports := [("E90_A", -40); ("CGOET_B", -60)]%string in
  let scanned := newSSIDs b reports (startScan b 0 s) in
  List.In "CGOET_B"%string (ssids (_ssidList scanned)) /\
  ssids (_ssidList (_newSSID b "CGOET_B" (-20) scanned))
  = ssids (_ssidList scanned).
Proof.
  intros b s reports scanned.
  assert (Hin : List.In "CGOET_B"%string (ssids (_ssidList scanned)))
    by (vm_compute; tauto).
  split; [exact Hin|].
  exact (proj1 (proj2 (ssid_list_unique b 0 reports s) "CGOET_B"%string (-20) Hin)).
Defined.

(** The path of [_newSSID] that appends sorts the whole list. *)
Lemma newSSID_append_descending (b : Build) (name : string) (r : Z)
    (s : State) :
  accepted b name = true -> ~ List.In name (ssids (_ssidList s)) ->
  descending_rssi (_ssidList (_newSSID b name r s)).
Proof.
  intros Ha Hni. unfold _newSSID. fold (accepted b name). rewrite Ha.
  destruct (_findSsid name r (_ssidList s)) as [[found|] l] eqn:Ef.
  - exfalso. apply Hni. clear Hni.
    assert (Hf : (_findSsid name r (_ssidList s)).1 <> None)
      by (rewrite Ef; discriminate).
    revert Hf. generalize (_ssidList s). clear. intros l0 Hf.
    induction l0 as [|s0 l0 IH]; simpl in *; [congruence|].
    destruct (String.eqb (ssid s0) name) eqn:E.
    + left. now apply String.eqb_eq.
    + right. apply IH. destruct (_findSsid name r l0). exact Hf.
  - simpl. apply compareRSSI_descending, std_sort_adjacent.
    exact compareRSSI_asym.
Qed.

(** C3, on the code.  Two networks are reported, then the weaker one is
    reported again with a stronger signal: [_findSsid] stores the new
    strength in place, [_newSSID] skips its sort, and the list is left
    with the weaker network first. *)
Theorem rssi_update_breaks_order (b : Build) (s : State) :
  let reports := [("E90_A", -40); ("E90_B", -60); ("E90_B", -20)]%string in
  let l := _ssidList (newSSIDs b reports (_clearSSids s)) in
  l = [{| ssid := "E90_A"; rssi := -40 |}; {| ssid := "E90_B"; rssi := -20 |}]
  /\ ~ descending_rssi l.
Proof.
  intros reports l.
  assert (Hl : l = [{| ssid := "E90_A"; rssi := -40 |};
                    {| ssid := "E90_B"; rssi := -20 |}]).
  { subst l reports. destruct b as [a [|] d]; reflexivity. }
  split; [exact Hl|]. rewrite Hl. intros H.
  specialize (H 0%nat _ _ eq_refl eq_refl). simpl in H. lia.
Qed.

(** C4.  [_authenticationError] removes the current SSID from
    [_configurations] and changes no other entry; when the SSID was
    stored, the settings group is rewritten from the pruned map, and
    otherwise it is left alone; [_bindingWiFi] is cleared; and
    [startScan] runs: scanning is enabled and, on the controller build,
    the platform scan is started at once or armed on a timer. *)
Theorem authenticationError_prunes (b : Build) (s : State) :
  let s' := _authenticationError b s in
  _configurations s' = delete (_ssid s) (_configurations s) /\
  _configurations s' !! _ssid s = None /\
  (forall key, key <> _ssid s ->
               _configurations s' !! key = _configurations s !! key) /\
  (if bool_decide (is_Some (_configurations s !! _ssid s))
   then persisted (_configurations s') (settings_WifiConfig s')
   else settings_WifiConfig s' = settings_WifiConfig s) /\
  _bindingWiFi s' = false /\
  _scanEnabled s' = true /\
  (androidx86 b = true ->
   if startScan_default b =? 0
   then _scanningWiFi s' = true /\ jni s' = jni s ++ ["startWifiScan"%string]
   else timers s' = timers s ++ [(startScan_default b, slot_scanWifi)]).
Proof.
  intros s'. subst s'. unfold _authenticationError.
  set (s1 := if bool_decide (is_Some (_configurations s !! _ssid s))
             then _ else s).
  set (s2 := emit authenticationError _).
  assert (H1 : _configurations s1 = delete (_ssid s) (_configurations s)).
  { subst s1. case_bool_decide as Hc; simpl; [reflexivity|].
    symmetry. apply delete_id. now apply eq_None_not_Some. }
  assert (H1s : if bool_decide (is_Some (_configurations s !! _ssid s))
                then persisted (_configurations s1) (settings_WifiConfig s1)
                else settings_WifiConfig s1 = settings_WifiConfig s).
  { subst s1. case_bool_decide; [|reflexivity].
    apply (save_persisted
             (set_configurations (delete (_ssid s) (_configurations s)) s)). }
  assert (H1j : jni s1 = jni s /\ timers s1 = timers s).
  { subst s1. case_bool_decide; simpl; tauto. }
  destruct (startScan_frame b (startScan_default b) s2)
    as (Hc & _ & Hb & Hs & He).
  simpl in Hc, Hb, Hs. rewrite Hc, Hs, Hb, He, H1.
  repeat split.
  - apply lookup_delete_eq.
  - intros key Hk. now apply lookup_delete_ne.
  - rewrite <- H1. exact H1s.
  - intros Ha. unfold startScan. rewrite Ha.
    destruct (startScan_default b =? 0) eqn:Ed; simpl.
    + unfold _scanWifi. rewrite Ha. simpl. now rewrite (proj1 H1j).
    + now rewrite (proj2 H1j).
Qed.

(** The theorem at a state that holds a password for the current camera
    and one for another. *)
Lemma authenticationError_prunes_witness :
  let b := {| androidx86 := true; qt_debug := false; startScan_default := 0 |} in
  let s := {| _ssidList := [];
              _configurations :=
                <["E90_A"%string := "pw1"%string]>
                  (<["E90_B"%string := "pw2"%string]> ∅);
              _ssid := "E90_A";
              _scanEnabled := false; _scanningWiFi := false;
              _bindingWiFi := true; settings_WifiConfig := ∅; jni := [];
              timers := []; emitted := [] |} in
  _configurations (_authenticationError b s) !! "E90_B"%string = Some "pw2"%string
  /\ _scanningWiFi (_authenticationError b s) = true.
Proof.
  intros b s.
  destruct (authenticationError_prunes b s) as (_ & _ & Hk & _ & _ & _ & Hscan).
  split.
  - rewrite (Hk "E90_B"%string); [reflexivity|discriminate].
  - apply (Hscan eq_refl).
Defined.

End WifiProperties.

(* ================================================================== *)
(** ** Log rotation *)
(* ================================================================== *)

Section LogFacts.
Import StdSort Logs.

Lemma total_size_from (logs : list QFileInfo) (acc : Z) :
  fold_left (fun total f => total + size f) logs acc = acc + total_size logs.
Proof.
  unfold total_size. revert acc.
  induction logs as [|f logs IH]; intros acc; simpl; [lia|].
  rewrite (IH (acc + size f)), (IH (0 + size f)). lia.
Qed.

Lemma total_size_cons (f : QFileInfo) (logs : list QFileInfo) :
  total_size (f :: logs) = size f + total_size logs.
Proof. unfold total_size at 1. simpl. rewrite total_size_from. lia. Qed.

(** The loop stops with the list empty or the total at most 1 GB, and
    what it removes is a front part of the list. *)
Lemma remove_logs_bound (logs : list QFileInfo) :
  let '(removed, kept) := remove_logs (total_size logs) logs in
  (kept = [] \/ total_size kept <= 1024 * 1024 * 1024) /\
  exists gone, logs = gone ++ kept /\ removed = map filePath gone.
Proof.
  induction logs as [|f logs IH]; simpl.
  - split; [now left|]. now exists [].
  - destruct (total_size (f :: logs) >? 1024 * 1024 * 1024) eqn:E.
    + rewrite total_size_cons.
      replace (size f + total_size logs - size f) with (total_size logs)
        by lia.
      destruct (remove_logs (total_size logs) logs) as [removed kept].
      destruct IH as [IH1 (gone & -> & ->)]. split; [exact IH1|].
      now exists (f :: gone).
    + split; [right; lia|]. now exists [].
Qed.

(** What the rotation does on any listing: the files it keeps fit in
    1 GB (unless there was one file at most), and every file it removes
    is at least as new as every file it keeps. *)
Lemma init_logs_removes_newest_first (entries : list QFileInfo) :
  let '(removed, kept) := init_logs entries in
  ((length entries <= 1)%nat \/ kept = []
   \/ total_size kept <= 1024 * 1024 * 1024) /\
  exists gone,
    Permutation entries (gone ++ kept) /\ removed = map filePath gone /\
    forall g k, List.In g gone -> List.In k kept -> created k <= created g.
Proof.
  unfold init_logs.
  pose proof (std_sort_perm created_greater_than entries) as Hperm.
  pose proof (std_sort_length created_greater_than entries) as Hlen.
  pose proof (fun front back =>
                std_sort_split created_greater_than
                  ltac:(unfold created_greater_than; lia)
                  entries front back
                  ltac:(unfold in_order, created_greater_than; lia)) as Hsplit.
  destruct (Z.of_nat (length (std_sort created_greater_than entries)) >? 1)
    eqn:E.
  - pose proof (remove_logs_bound (std_sort created_greater_than entries))
      as Hb.
    destruct (remove_logs _ _) as [removed kept].
    destruct Hb as [Hb (gone & Hg & ->)]. split; [tauto|].
    exists gone. split; [now rewrite <- Hg|]. split; [reflexivity|].
    intros g k Hin Hk. specialize (Hsplit gone kept Hg g k Hin Hk).
    unfold in_order, created_greater_than in Hsplit. lia.
  - split; [left; lia|]. exists []. simpl. split; [exact Hperm|].
    split; [reflexivity|]. intros g k [].
Qed.

(** One log is never removed, whatever its size. *)
Example init_logs_single :
  let big := {| filePath := "big.tlog"; created := 1;
                size := 2 * 1024 * 1024 * 1024 |} in
  init_logs [big] = ([], [big]).
Proof. reflexivity. Qed.

(** C5, on the code.  Two logs of 600 MB each: the sort by
    [created_greater_than] puts the newer one at [logs[0]], and that is
    the file the loop removes; the older one stays. *)
Theorem log_rotation_removes_newest :
  let old_log := {| filePath := "old.tlog"; created := 1000;
                    size := 600 * 1024 * 1024 |} in
  let new_log := {| filePath := "new.tlog"; created := 2000;
                    size := 600 * 1024 * 1024 |} in
  oldest old_log [old_log; new_log] /\
  init_logs [old_log; new_log] = (["new.tlog"%string], [old_log]) /\
  init_logs [new_log; old_log] = (["new.tlog"%string], [old_log]).
Proof.
  intros old_log new_log. split; [|split; reflexivity].
  split; [now left|]. intros g [<-|[<-|[]]]; simpl; lia.
Qed.

End LogFacts.

(* ================================================================== *)
(** ** Mission import *)
(* ================================================================== *)

Section MissionFacts.
Import Missions.

(** Both ways out of the copy loop clear [_copyingFiles] and set
    [_copyingDone]. *)
Lemma import_loop_resets (env : Env) (totalFiles curCount : Z)
    (fil : list QFileInfo) (s : State) :
  let s' := import_loop env totalFiles curCount fil s in
  _copyingFiles s' = false /\ _copyingDone s' = true.
Proof.
  revert curCount s. induction fil as [|fi fil IH]; intros curCount s; simpl;
    [tauto|].
  match goal with |- context [QFile_copy ?a ?b ?c] =>
    destruct (QFile_copy a b c) end; [apply IH|simpl; tauto].
Qed.

Lemma importMissions_source_present (env : Env) (s : State) :
  source_exists env = true ->
  _copyingFiles (_importMissions env s) = false.
Proof.
  intros H. unfold _importMissions. rewrite H. simpl. apply import_loop_resets.
Qed.

(** C6, on the code.  With the source directory missing,
    [_importMissions] sets the message and returns: [_copyingFiles], set
    by [importMission], is still set, and [_copyingDone] is untouched. *)
Theorem import_missing_source_keeps_flag (env : Env) (s : State) :
  source_exists env = false ->
  let s' := _importMissions env (importMission s) in
  _copyingFiles s' = true /\
  _copyingDone s' = _copyingDone s /\
  _copyMessage s'
  = "Source path missing. Make sure you have a (FAT32 Formatted) microSD card loaded."%string.
Proof.
  intros H. unfold _importMissions. rewrite H. simpl. tauto.
Qed.

Lemma import_missing_source_keeps_flag_witness :
  let env := {| source_exists := false; plan_files := [];
                missionSavePath := "/missions";
                percent := fun cur total => 100 * cur / total |} in
  let s := {| _copyingFiles := false; _copyingDone := false;
              _copyMessage := ""; _updateProgress := 0; files := ∅;
              timers := []; emitted := [] |} in
  _copyingFiles (_importMissions env (importMission s)) = true.
Proof.
  intros env s.
  exact (proj1 (import_missing_source_keeps_flag env s eq_refl)).
Defined.

End MissionFacts.

(* ================================================================== *)
(** ** Media list *)
(* ================================================================== *)

Section MediaFacts.
Import StdSort Media.

Example wildcard_jpg :
  wildcard "*.jpg" "IMG_0001.jpg" = true /\
  wildcard "*.jpg" "IMG_0001.JPG" = true /\
  wildcard "*.jpg" "IMG_0001.jpeg" = false /\
  wildcard "*.jpg" "jpg" = false.
Proof. repeat split. Qed.

(** Three photos and a video: the photos are listed, newest name first. *)
Example refresh_photos :
  let file := fun n => {| name := n; isFile := true; isReadable := true;
                          isSymLink := false; isHidden := false |} in
  let env := {| savePath := "/sdcard"; YUNEEC_VIDEO_EXTENSION := ".mp4";
                dir_entries := fun _ =>
                  [file "P_0002.jpg"; file "V_0001.mp4"; file "P_0003.jpg";
                   file "P_0001.jpg"]%string |} in
  let s := {| _mediaList := [{| fileName := "stale"; selected := true |}];
              _selectedCount := 1; _browseVideos := false; emitted := [] |} in
  fileNames (_mediaList (refreshMeadiaList env s))
  = ["P_0003.jpg"; "P_0002.jpg"; "P_0001.jpg"]%string.
Proof. reflexivity. Qed.

Lemma QString_gt_asym (x y : string) :
  QString_gt x y = true -> QString_gt y x = false.
Proof.
  unfold QString_gt. rewrite (String.compare_antisym y x).
  now destruct (String.compare x y).
Qed.

Lemma QString_gt_false_ge (x y : string) :
  QString_gt y x = false -> String.compare x y <> Lt.
Proof.
  unfold QString_gt. rewrite (String.compare_antisym y x).
  now destruct (String.compare x y).
Qed.

Lemma append_all (names : list string) (s : State) :
  _mediaList
    (fold_left
       (fun s fileName =>
          appendMediaItem {| fileName := fileName; selected := false |} s)
       names s)
  = _mediaList s
    ++ map (fun n => {| fileName := n; selected := false |}) names.
Proof.
  revert s. induction names as [|n names IH]; intros s; simpl.
  - now rewrite List.app_nil_r.
  - rewrite IH. simpl. now rewrite <- List.app_assoc.
Qed.

Lemma refresh_mediaList (env : Env) (s : State) :
  _mediaList (refreshMeadiaList env s)
  = std_sort (fun a b => QString_gt (fileName a) (fileName b))
      (map (fun n => {| fileName := n; selected := false |})
         (entryList (nameFilters env s) (browsed env s))).
Proof. unfold refreshMeadiaList. simpl. now rewrite append_all. Qed.

Lemma refresh_names (env : Env) (s : State) :
  Permutation (fileNames (_mediaList (refreshMeadiaList env s)))
    (entryList (nameFilters env s) (browsed env s)).
Proof.
  rewrite refresh_mediaList. unfold fileNames.
  rewrite <- (std_sort_perm _ _). rewrite List.map_map. simpl.
  now rewrite List.map_id.
Qed.

Lemma entryList_In (filters : list string) (entries : list DirEntry)
    (n : string) :
  List.In n (entryList filters entries) <->
  exists e, List.In e entries /\ name e = n /\ passes_filter e = true
            /\ matches_names filters e = true.
Proof.
  unfold entryList. rewrite List.in_map_iff. split.
  - intros (e & Hn & He). apply List.filter_In in He. destruct He as [He Hf].
    apply andb_true_iff in Hf. exists e. tauto.
  - intros (e & He & Hn & Hp & Hm). exists e. split; [assumption|].
    apply List.filter_In. split; [assumption|]. now rewrite Hp, Hm.
Qed.

(** C7, as the code has it.  After [refreshMeadiaList] the file names of
    [_mediaList] descend between neighbours, and they are, entry for
    entry, the names of the directory entries that pass the filter
    [Files | Readable | NoSymLinks] (readable files that are neither
    symbolic links nor hidden) and match a name filter. *)
Theorem refresh_sorted_filtered (env : Env) (s : State) :
  let s' := refreshMeadiaList env s in
  descending_names (_mediaList s') /\
  Permutation (fileNames (_mediaList s'))
    (entryList (nameFilters env s) (browsed env s)) /\
  lists_filtered_matches env s s'.
Proof.
  intros s'. subst s'. split; [|split].
  - rewrite refresh_mediaList. intros i a b Ha Hb.
    pose proof (std_sort_adjacent
                  (fun a b : TyphoonMediaItem =>
                     QString_gt (fileName a) (fileName b))
                  (fun x y => QString_gt_asym (fileName x) (fileName y))
                  _ i a b Ha Hb) as H.
    now apply QString_gt_false_ge.
  - apply refresh_names.
  - intros n. rewrite <- entryList_In. split; intros H.
    + eapply Permutation_in; [apply refresh_names|exact H].
    + eapply Permutation_in; [symmetry; apply refresh_names|exact H].
Qed.

(** C7 as stated fails on a directory that holds a symbolic link named
    like a photo: the name filters match it and the list leaves it out. *)
Lemma refresh_omits_symlink :
  let link := {| name := "a.jpg"; isFile := true; isReadable := true;
                 isSymLink := true; isHidden := false |} in
  let env := {| savePath := "/sdcard"; YUNEEC_VIDEO_EXTENSION := ".mp4";
                dir_entries := fun _ => [link] |} in
  let s := {| _mediaList := []; _selectedCount := 0; _browseVideos := false;
              emitted := [] |} in
  _mediaList (refreshMeadiaList env s) = [] /\
  matches_names (nameFilters env s) link = true /\
  ~ lists_name_matches env s (refreshMeadiaList env s).
Proof.
  intros link env s. split; [reflexivity|]. split; [reflexivity|].
  intros H. destruct (H "a.jpg"%string) as [_ H2].
  apply H2. exists link. repeat split. now left.
Qed.

(** C10.  [mediaItem] returns the item at [index] when
    [0 <= index < mediaCount()], [NULL] for any other index (and so for
    every index when the list is empty), and never reads outside the
    list. *)
Theorem mediaItem_total (index : Z) (s : State) :
  (0 <= index < mediaCount s ->
   exists p, _mediaList s !! Z.to_nat index = Some p
             /\ mediaItem index s = Item p) /\
  (index < 0 \/ mediaCount s <= index -> mediaItem index s = Null) /\
  (_mediaList s = [] -> mediaItem index s = Null) /\
  mediaItem index s <> OutOfBounds.
Proof.
  unfold mediaItem, mediaCount, QList_at.
  set (size := Z.of_nat (length (_mediaList s))).
  assert (Hcase : (0 <= index /\ index < size) \/ index < 0 \/ size <= index)
    by lia.
  destruct Hcase as [Hr|Hr].
  - assert (G : (index >=? 0) && negb (size =? 0) && (index <? size) = true)
      by lia.
    assert (G0 : (index <? 0) = false) by lia.
    destruct (lookup_lt_is_Some_2 (_mediaList s) (Z.to_nat index)) as [p Hp];
      [subst size; lia|].
    rewrite G, G0, Hp. repeat split; try discriminate.
    + eauto.
    + lia.
    + intros Hl. rewrite Hl in Hp. now rewrite lookup_nil in Hp.
  - assert (G : (index >=? 0) && negb (size =? 0) && (index <? size) = false)
      by lia.
    rewrite G. repeat split; try discriminate. lia.
Qed.

Lemma mediaItem_total_witness :
  let first := {| fileName := "b.jpg"; selected := false |} in
  let s := {| _mediaList := [first; {| fileName := "a.jpg"; selected := true |}];
              _selectedCount := 1; _browseVideos := false; emitted := [] |} in
  (exists p, _mediaList s !! Z.to_nat 0 = Some p /\ mediaItem 0 s = Item p)
  /\ mediaItem 2 s = Null /\ mediaItem (-1) s = Null.
Proof.
  intros first s. split; [|split].
  - apply (proj1 (mediaItem_total 0 s)). unfold mediaCount. simpl. lia.
  - apply (proj1 (proj2 (mediaItem_total 2 s))). unfold mediaCount. simpl. lia.
  - apply (proj1 (proj2 (mediaItem_total (-1) s))). left. reflexivity.
Defined.

End MediaFacts.

(* ================================================================== *)
(** ** Thermal opacity *)
(* ================================================================== *)

Section ThermalFacts.
Import Thermal.

(** [d_100] is the binary64 value of the integer 100. *)
Example d_100_is_100 : binary_normalize 53 1024 100 0 false = d_100.
Proof. reflexivity. Qed.

Lemma SFcompare_antisym (x y : spec_float) :
  SFcompare y x = option_map CompOpp (SFcompare x y).
Proof.
  destruct x as [sx|sx| |sx mx ex], y as [sy|sy| |sy my ey]; simpl;
    try reflexivity;
    try (destruct sx; reflexivity); try (destruct sy; reflexivity);
    try (destruct sx, sy; reflexivity).
  destruct sx, sy; simpl; try reflexivity;
    rewrite (Z.compare_antisym ex ey); destruct (ex ?= ey); simpl;
    try reflexivity;
    change (PosDef.Pos.compare_cont Eq) with Pos.compare;
    now rewrite (Pos.compare_antisym mx my).
Qed.

Lemma SFcompare_Some (x y : spec_float) :
  x <> S754_nan -> y <> S754_nan -> exists c, SFcompare x y = Some c.
Proof. intros Hx Hy. destruct x, y; simpl; try congruence; eauto. Qed.

(** For values that are not NaN, "not less" is "greater or equal". *)
Lemma SFltb_false_leb (x y : spec_float) :
  x <> S754_nan -> y <> S754_nan -> SFltb x y = false -> SFleb y x = true.
Proof.
  intros Hx Hy. unfold SFltb, SFleb. rewrite (SFcompare_antisym x y).
  destruct (SFcompare_Some x y Hx Hy) as [c ->]. now destruct c.
Qed.

Lemma SFeqb_cases (x y : spec_float) :
  SFeqb x y = true ->
  x = y \/ exists sx sy, x = S754_zero sx /\ y = S754_zero sy.
Proof.
  unfold SFeqb.
  destruct x as [sx|sx| |sx mx ex], y as [sy|sy| |sy my ey]; simpl;
    try discriminate; try (destruct sx; discriminate);
    try (destruct sy; discriminate).
  - eauto.
  - destruct sx, sy; try discriminate; auto.
  - destruct sx, sy; try discriminate;
      destruct (ex ?= ey) eqn:Ee; try discriminate;
      apply Z.compare_eq in Ee; subst ey;
      change (PosDef.Pos.compare_cont Eq) with Pos.compare;
      destruct (Pos.compare mx my) eqn:Em; try discriminate;
      apply Pos.compare_eq in Em; subst my; auto.
Qed.

Lemma SFeqb_refl (x : spec_float) : x <> S754_nan -> SFeqb x x = true.
Proof.
  unfold SFeqb. destruct x as [s|s| |s m e]; simpl; try congruence.
  - now destruct s.
  - intros _. rewrite Z.compare_refl.
    change (PosDef.Pos.compare_cont Eq) with Pos.compare.
    destruct s; now rewrite Pos.compare_refl.
Qed.

Lemma clamped_not_nan (val : spec_float) :
  val <> S754_nan -> clamped val <> S754_nan.
Proof.
  intros H. unfold clamped. destruct (SFltb val d_0).
  - simpl. discriminate.
  - destruct (SFltb d_100 val); [discriminate|assumption].
Qed.

Lemma clamped_in_range (val : spec_float) :
  val <> S754_nan -> in_range (clamped val) = true.
Proof.
  intros H. unfold clamped, in_range.
  destruct (SFltb val d_0) eqn:E0; [reflexivity|].
  destruct (SFltb d_100 val) eqn:E1; [reflexivity|].
  rewrite (SFltb_false_leb val d_0), (SFltb_false_leb d_100 val);
    try assumption; try discriminate. reflexivity.
Qed.

Lemma in_range_SFeqb (x y : spec_float) :
  SFeqb x y = true -> in_range y = true -> in_range x = true.
Proof.
  intros He Hy. destruct (SFeqb_cases x y He) as [->|(sx & sy & -> & ->)];
    [assumption|reflexivity].
Qed.

(** C9, as the code has it.  For every [val] that is not NaN, after
    [setThermalOpacity(val)] the stored opacity lies in the closed
    interval from 0.0 to 100.0 and compares equal to the clamped value;
    a [val] below 0.0 is clamped to 0.0 and one above 100.0 to 100.0; when
    the clamped value compares equal to the current one the state and the
    settings stay as they are, and otherwise the clamped value is stored
    and written to the settings. *)
Theorem setThermalOpacity_clamps (val : spec_float) (s : State) :
  val <> S754_nan ->
  let s' := setThermalOpacity val s in
  in_range (_thermalOpacity s') = true /\
  SFeqb (_thermalOpacity s') (clamped val) = true /\
  (SFltb val d_0 = true -> clamped val = d_0) /\
  (SFltb d_100 val = true -> clamped val = d_100) /\
  (SFeqb (_thermalOpacity s) (clamped val) = true -> s' = s) /\
  (SFeqb (_thermalOpacity s) (clamped val) = false ->
   _thermalOpacity s' = clamped val /\
   settings_ThermalOpacity s' = Some (clamped val) /\
   in_range (clamped val) = true).
Proof.
  intros Hnan s'. subst s'. unfold setThermalOpacity. fold (clamped val).
  pose proof (clamped_in_range val Hnan) as Hr.
  pose proof (clamped_not_nan val Hnan) as Hc.
  assert (H0 : SFltb val d_0 = true -> clamped val = d_0).
  { intros H. unfold clamped. now rewrite H. }
  assert (H100 : SFltb d_100 val = true -> clamped val = d_100).
  { intros H. unfold clamped. destruct (SFltb val d_0) eqn:E0; [|now rewrite H].
    exfalso. destruct val as [sv|sv| |sv mv ev]; try destruct sv;
      discriminate. }
  destruct (SFeqb (_thermalOpacity s) (clamped val)) eqn:E; simpl.
  - repeat split; try assumption; try discriminate.
    now apply (in_range_SFeqb _ (clamped val)).
  - repeat split; try assumption; try discriminate.
    now apply SFeqb_refl.
Qed.

Lemma setThermalOpacity_clamps_witness :
  let s := {| _thermalOpacity := S754_finite false 5981343255101440 (-46);
              settings_ThermalOpacity := None; emitted := [] |} in
  let val := S754_finite false 4785074604081152 (-45) in
  val <> S754_nan /\
  in_range (_thermalOpacity (setThermalOpacity val s)) = true.
Proof.
  intros s val.
  assert (H : val <> S754_nan) by discriminate.
  exact (conj H (proj1 (setThermalOpacity_clamps val s H))).
Defined.

(** C9 as stated fails at NaN: both clamping tests are false on it and it
    differs from every value, so it is stored and written to the
    settings.  [s] is the state the constructor sets up (opacity 85.0). *)
Lemma setThermalOpacity_stores_nan :
  let s := {| _thermalOpacity := S754_finite false 5981343255101440 (-46);
              settings_ThermalOpacity := None; emitted := [] |} in
  let s' := setThermalOpacity S754_nan s in
  _thermalOpacity s' = S754_nan /\
  settings_ThermalOpacity s' = Some S754_nan /\
  in_range (_thermalOpacity s') = false.
Proof. repeat split. Qed.

End ThermalFacts.

(* ================================================================== *)
(** ** [startCopy] *)
(* ================================================================== *)

Section FileCopyFacts.
Import FileCopy.

Lemma chunk_size_pos : 0 < READ_CHUNK_SIZE.
Proof. reflexivity. Qed.

Lemma read_chunk_app (maxSize : Z) (rest : list Byte.byte) :
  (read_chunk maxSize rest).1 ++ (read_chunk maxSize rest).2 = rest.
Proof.
  revert maxSize. induction rest as [|x rest IH]; intros maxSize; simpl;
    [reflexivity|].
  destruct (maxSize <=? 0); [reflexivity|].
  specialize (IH (maxSize - 1)).
  destruct (read_chunk (maxSize - 1) rest) as [data unread]. simpl in *.
  now rewrite IH.
Qed.

Lemma read_chunk_length (maxSize : Z) (rest : list Byte.byte) :
  0 <= maxSize ->
  Z.of_nat (length (read_chunk maxSize rest).1)
  = Z.min maxSize (Z.of_nat (length rest)).
Proof.
  revert maxSize. induction rest as [|x rest IH]; intros maxSize Hm.
  - simpl. lia.
  - cbn [read_chunk]. destruct (maxSize <=? 0) eqn:E.
    + simpl. lia.
    + specialize (IH (maxSize - 1)).
      destruct (read_chunk (maxSize - 1) rest) as [data unread].
      cbn [fst length] in *. lia.
Qed.

(** One pass of the loop on input that is not at its end. *)
Lemma read_chunk_progress (rest : list Byte.byte) :
  rest <> [] ->
  let '(data, unread) := read_chunk READ_CHUNK_SIZE rest in
  data ++ unread = rest /\
  0 < Z.of_nat (length data) <= READ_CHUNK_SIZE /\
  (Z.of_nat (length data) < READ_CHUNK_SIZE -> unread = []) /\
  (length unread < length rest)%nat.
Proof.
  intros Hne. pose proof chunk_size_pos as Hc.
  pose proof (read_chunk_app READ_CHUNK_SIZE rest) as Ha.
  pose proof (read_chunk_length READ_CHUNK_SIZE rest) as Hl.
  destruct (read_chunk READ_CHUNK_SIZE rest) as [data unread].
  cbn [fst snd] in *. specialize (Hl ltac:(lia)).
  assert (Hlen : length rest = (length data + length unread)%nat)
    by (now rewrite <- Ha, List.length_app).
  assert (0 < length rest)%nat by (destruct rest; [congruence|simpl; lia]).
  repeat split; try lia; try assumption.
  intros Hlt. destruct unread; [reflexivity|]. simpl in Hlen. lia.
Qed.

(** The loop returns whenever it is given [length rest] passes, and its
    result is of one of two kinds: all input written and [copyDone] sent
    after the progress reports, with no failed device call; or a failed
    device call, and [copyError] sent in place of [copyDone]. *)
Lemma copy_loop_total (env : Env) (total : Z) (fuel : nat) :
  forall (n : nat) (current : Z) (rest out : list Byte.byte),
    (length rest <= fuel)%nat ->
    exists sigs ops res,
      copy_loop fuel env total n current rest out = Some (sigs, ops, res) /\
      match res with
      | Copied written =>
          written = out ++ rest /\
          List.Forall (fun op => io_failed op = false) ops /\
          ends_with copyDone sigs
      | Failed =>
          List.Exists (fun op => io_failed op = true) ops /\
          (ends_with (copyError "Error reading firmware file.") sigs \/
           ends_with (copyError "Error writing firmware file.") sigs)
      end.
Proof.
  induction fuel as [|fuel IH]; intros n current rest out Hlen.
  - destruct rest; [|simpl in Hlen; lia].
    exists [copyDone], [], (Copied out). simpl. rewrite List.app_nil_r.
    repeat split; [constructor|now exists []].
  - destruct rest as [|x rest'].
    { exists [copyDone], [], (Copied out). simpl. rewrite List.app_nil_r.
      repeat split; [constructor|now exists []]. }
    cbn [copy_loop]. destruct (read_fails env n).
    { eexists _, _, Failed. split; [reflexivity|]. split.
      - constructor. reflexivity.
      - left. now exists []. }
    pose proof (read_chunk_progress (x :: rest') ltac:(discriminate)) as Hp.
    destruct (read_chunk READ_CHUNK_SIZE (x :: rest')) as [data unread].
    destruct Hp as (Happ & Hcount & _ & Hlt).
    set (count := Z.of_nat (length data)) in *.
    assert (Hc0 : (count =? 0) = false) by lia. rewrite Hc0. cbn [negb andb].
    destruct (write_ret env n count =? count) eqn:Ew; cbn [negb].
    + destruct (IH (S n) (current + count) unread (out ++ data)
                  ltac:(simpl in Hlen, Hlt; lia)) as (sigs & ops & res & -> & Hres).
      eexists _, _, res. split; [reflexivity|]. destruct res.
      * destruct Hres as (-> & Hok & percents & ->). repeat split.
        -- now rewrite <- Happ, List.app_assoc.
        -- constructor; [simpl; lia|]. constructor; [|exact Hok].
           simpl. now rewrite Ew.
        -- now exists (percent env (current + count) total :: percents).
      * destruct Hres as (Hex & Hsig). split.
        -- apply List.Exists_cons_tl, List.Exists_cons_tl. exact Hex.
        -- destruct Hsig as [[percents ->]|[percents ->]]; [left|right];
             now exists (percent env (current + count) total :: percents).
    + eexists _, _, Failed. split; [reflexivity|]. split.
      * apply List.Exists_cons_tl. constructor. simpl. now rewrite Ew.
      * right. now exists [].
Qed.

(** With no fault the passes move fixed chunks: the chunks make up the
    unread input, and each is followed by the report of the bytes moved
    so far. *)
Lemma copy_loop_chunks (env : Env) (total : Z) (fuel : nat) :
  no_faults env ->
  forall (n : nat) (current : Z) (rest out : list Byte.byte)
         (sigs : list Signal) (ops : list IoOp) (res : Outcome),
    copy_loop fuel env total n current rest out = Some (sigs, ops, res) ->
    res <> Failed /\
    exists lens, ops = chunk_ops lens /\ fixed_chunks lens
                 /\ (rest = [] -> lens = [])
                 /\ bytes_moved lens = Z.of_nat (length rest)
                 /\ sigs = map copyProgress
                             (progress_reports env total current lens)
                           ++ [copyDone].
Proof.
  intros [Hr Hw]. induction fuel as [|fuel IH];
    intros n current rest out sigs ops res Hrun.
  - destruct rest; [|discriminate]. inversion Hrun; subst.
    split; [discriminate|]. exists []. repeat split.
    now exists 0%nat, []; auto.
  - destruct rest as [|x rest'].
    { inversion Hrun; subst. split; [discriminate|]. exists [].
      repeat split. now exists 0%nat, []; auto. }
    cbn [copy_loop] in Hrun. rewrite Hr in Hrun.
    pose proof (read_chunk_progress (x :: rest') ltac:(discriminate)) as Hp.
    destruct (read_chunk READ_CHUNK_SIZE (x :: rest')) as [data unread].
    destruct Hp as (Happ & Hcount & Hshort & Hlt).
    assert (Hlen : Z.of_nat (length (x :: rest'))
                   = Z.of_nat (length data) + Z.of_nat (length unread))
      by (rewrite <- Happ, List.length_app; lia).
    set (count := Z.of_nat (length data)) in *.
    rewrite Hw in Hrun.
    assert (Hc0 : (count =? 0) = false) by lia.
    rewrite Hc0, Z.eqb_refl in Hrun. cbn [negb andb] in Hrun.
    destruct (copy_loop fuel env total (S n) (current + count) unread
                (out ++ data)) as [[[sigs' ops'] res']|] eqn:Erec;
      [|discriminate].
    inversion Hrun; subst. clear Hrun.
    destruct (IH _ _ _ _ _ _ _ Erec)
      as (Hres & lens & -> & Hfix & Hnil & Hsum & ->).
    split; [exact Hres|]. exists (count :: lens).
    split; [reflexivity|]. split; [|split; [discriminate|split]].
    + destruct (Z.eq_dec count READ_CHUNK_SIZE) as [Heq|Hne].
      * destruct Hfix as (k & last & -> & Hlast).
        exists (S k), last. split; [|exact Hlast]. simpl. now rewrite Heq.
      * rewrite (Hnil (Hshort ltac:(lia))).
        exists 0%nat, [count]. split; [reflexivity|]. right. exists count.
        split; [reflexivity|lia].
    + cbn [bytes_moved fold_right]. fold (bytes_moved lens).
      rewrite Hsum, Hlen. reflexivity.
    + reflexivity.
Qed.

Lemma bytes_moved_app (lens lens' : list Z) :
  bytes_moved (lens ++ lens') = bytes_moved lens + bytes_moved lens'.
Proof.
  unfold bytes_moved. induction lens as [|len lens IH]; cbn [app fold_right];
    [reflexivity|]. rewrite IH. apply Z.add_assoc.
Qed.

Lemma bytes_moved_repeat (len : Z) (k : nat) :
  bytes_moved (repeat len k) = Z.of_nat k * len.
Proof.
  unfold bytes_moved. induction k as [|k IH]; [reflexivity|].
  cbn [repeat fold_right]. rewrite IH, Nat2Z.inj_succ. ring.
Qed.

(** Fixed chunks are determined by the bytes they move. *)
Lemma fixed_chunks_unique (lens : list Z) :
  fixed_chunks lens -> lens = chunks_of (bytes_moved lens).
Proof.
  pose proof chunk_size_pos as Hc.
  intros (k & last & -> & Hlast). unfold chunks_of.
  rewrite bytes_moved_app, bytes_moved_repeat.
  destruct Hlast as [->|(r & -> & Hr)].
  - cbn [bytes_moved fold_right]. rewrite Z.add_0_r.
    rewrite Z.div_mul, Z.mod_mul, Nat2Z.id by lia. reflexivity.
  - cbn [bytes_moved fold_right]. rewrite Z.add_0_r.
    rewrite Z.div_add_l, Z.div_small, Z.add_0_r, Nat2Z.id by lia.
    rewrite Z.add_comm, Z.mod_add, Z.mod_small by lia.
    destruct (r =? 0) eqn:E; [lia|reflexivity].
Qed.

(** A three-byte image: one pass, one progress report, [copyDone]. *)
Example startCopy_small :
  let env := {| can_open_src := true; can_open_dst := true;
                read_fails := fun _ => false;
                write_ret := fun _ len => len;
                percent := fun current total => 100 * current / total |} in
  let fs := <["in"%string := [Byte.x01; Byte.x02; Byte.x03]]> ∅ in
  (fun r => (signals r, io r, files r !! "out"%string))
    <$> startCopy "in" "out" env fs
  = Some ([copyProgress 100; copyDone],
          [io_read READ_CHUNK_SIZE 3; io_write 3 3],
          Some [Byte.x01; Byte.x02; Byte.x03]).
Proof. reflexivity. Qed.

(** The same image when the device takes only two of the three bytes. *)
Example startCopy_short_write :
  let env := {| can_open_src := true; can_open_dst := true;
                read_fails := fun _ => false;
                write_ret := fun _ len => len - 1;
                percent := fun current total => 100 * current / total |} in
  let fs := <["in"%string := [Byte.x01; Byte.x02; Byte.x03]]> ∅ in
  (fun r => (signals r, io r, files r !! "out"%string))
    <$> startCopy "in" "out" env fs
  = Some ([copyError "Error writing firmware file."],
          [io_read READ_CHUNK_SIZE 3; io_write 3 2],
          None).
Proof. reflexivity. Qed.

Lemma ends_with_error (msg : string) (sigs : list Signal) :
  ends_with (copyError msg) sigs ->
  List.filter is_copyError sigs = [copyError msg] /\ ~ List.In copyDone sigs.
Proof.
  intros [percents ->]. induction percents as [|p percents [IH1 IH2]]; simpl.
  - split; [reflexivity|]. intros [H|[]]. discriminate.
  - split; [exact IH1|]. intros [H|H]; [discriminate|contradiction].
Qed.

(** C1.  When both files open and every read and write succeeds,
    [startCopy] returns with the destination holding what the source
    holds (the content the source had, when the two are different
    files); the device calls are one read of up to [READ_CHUNK_SIZE]
    bytes and one write of the bytes read per chunk, every chunk but a
    shorter last one being exactly [READ_CHUNK_SIZE] (4 MB) long, and the
    chunks together are the bytes of the destination, so that the calls
    are those of [chunks_of] its length; one progress report follows
    each chunk, of the bytes moved so far out of the size of the source
    when the copy began; and the signals end in a single [copyDone]. *)
Theorem startCopy_copies (_src _dst : string) (env : Env)
    (fs : gmap string (list Byte.byte)) (content : list Byte.byte) :
  fs !! _src = Some content ->
  can_open_src env = true -> can_open_dst env = true -> no_faults env ->
  exists r : Result,
    startCopy _src _dst env fs = Some r /\
    files r !! _dst = files r !! _src /\
    (_src <> _dst ->
     files r !! _dst = Some content /\ files r !! _src = Some content) /\
    (exists (lens : list Z) (copied : list Byte.byte),
       io r = chunk_ops lens /\ fixed_chunks lens /\
       files r !! _dst = Some copied /\
       bytes_moved lens = Z.of_nat (length copied) /\
       lens = chunks_of (Z.of_nat (length copied)) /\
       signals r
       = map copyProgress
           (progress_reports env (Z.of_nat (length content)) 0 lens)
         ++ [copyDone]) /\
    ends_with copyDone (signals r) /\
    List.filter is_copyError (signals r) = [].
Proof.
  intros Hsrc Hos Hod Hnf. unfold startCopy.
  rewrite Hos, Hod, Hsrc. rewrite bool_decide_eq_true_2 by eauto.
  cbn [andb negb].
  set (fs1 := <[_dst := []]> fs).
  set (input := default [] (fs1 !! _src)).
  set (total := Z.of_nat _).
  destruct (copy_loop_total env total (length input) 0%nat 0 input []
              (le_n _)) as (sigs & ops & res & Hrun & Hres).
  destruct (copy_loop_chunks env total (length input) Hnf _ _ _ _ _ _ _ Hrun)
    as (Hok & lens & Hops & Hfix & _ & Hsum & Hsigs).
  rewrite Hrun. destruct res as [written|]; [|congruence].
  destruct Hres as (Hw & _ & Hdone). simpl in Hw. subst written.
  eexists. split; [reflexivity|]. cbn [files io signals].
  assert (Hsrc1 : _src <> _dst -> fs1 !! _src = Some content).
  { intros Hne. subst fs1. rewrite lookup_insert_ne by congruence.
    exact Hsrc. }
  assert (Hin : _src <> _dst -> input = content).
  { intros Hne. subst input. now rewrite (Hsrc1 Hne). }
  split; [|split; [|split; [|split]]].
  - destruct (decide (_src = _dst)) as [Heq|Hne].
    + now rewrite Heq.
    + rewrite lookup_insert_eq, lookup_insert_ne by congruence.
      now rewrite (Hsrc1 Hne), (Hin Hne).
  - intros Hne. split.
    + rewrite lookup_insert_eq. now rewrite Hin.
    + rewrite lookup_insert_ne by congruence. now apply Hsrc1.
  - exists lens, input. split; [exact Hops|]. split; [exact Hfix|].
    split; [apply lookup_insert_eq|]. split; [exact Hsum|].
    split; [|exact Hsigs].
    rewrite <- Hsum. now apply fixed_chunks_unique.
  - exact Hdone.
  - destruct Hdone as [percents ->]. clear.
    induction percents; simpl; [reflexivity|assumption].
Qed.

Lemma startCopy_copies_witness :
  let env := {| can_open_src := true; can_open_dst := true;
                read_fails := fun _ => false;
                write_ret := fun _ len => len;
                percent := fun current total => 100 * current / total |} in
  let image := [Byte.x01; Byte.x02; Byte.x03] in
  let fs := <["/storage/sdcard1/update.zip"%string := image]> ∅ in
  exists r : Result,
    startCopy "/storage/sdcard1/update.zip" "/mnt/sdcard/update.zip" env fs
    = Some r /\
    files r !! "/mnt/sdcard/update.zip"%string = Some image /\
    io r = [io_read READ_CHUNK_SIZE 3; io_write 3 3] /\
    signals r = [copyProgress 100; copyDone].
Proof.
  intros env image fs.
  destruct (startCopy_copies "/storage/sdcard1/update.zip"
              "/mnt/sdcard/update.zip" env fs image eq_refl eq_refl eq_refl
              (conj (fun _ => eq_refl) (fun _ _ => eq_refl)))
    as (r & Hr & _ & Hc & (lens & copied & Hio & _ & Hd & _ & Hlens & Hsig)
        & _).
  destruct (Hc ltac:(discriminate)) as [Hdst _].
  assert (Hcopied : copied = image) by congruence.
  rewrite Hcopied in Hlens.
  assert (Hone : lens = [3]) by (rewrite Hlens; reflexivity).
  rewrite Hone in Hio, Hsig.
  exists r. split; [exact Hr|]. split; [exact Hdst|].
  split; [exact Hio|exact Hsig].
Defined.

(** C2.  [startCopy] always returns; and when a read or a write of the
    run failed (which can only be after the destination was opened), the
    signals are progress reports followed by a [copyError] with one of
    the two messages of the loop, that [copyError] is the only one, no
    [copyDone] is sent, and the destination file is gone. *)
Theorem startCopy_failure_cleans_up (_src _dst : string) (env : Env)
    (fs : gmap string (list Byte.byte)) :
  exists r : Result,
    startCopy _src _dst env fs = Some r /\
    (List.Exists (fun op => io_failed op = true) (io r) ->
     exists msg : string,
       (msg = "Error reading firmware file."%string
        \/ msg = "Error writing firmware file."%string) /\
       msg <> ""%string /\
       ends_with (copyError msg) (signals r) /\
       List.filter is_copyError (signals r) = [copyError msg] /\
       ~ List.In copyDone (signals r) /\
       files r !! _dst = None).
Proof.
  unfold startCopy.
  destruct (negb (can_open_src env && bool_decide (is_Some (fs !! _src)))).
  { eexists. split; [reflexivity|]. simpl. intros H. inversion H. }
  destruct (negb (can_open_dst env)).
  { eexists. split; [reflexivity|]. simpl. intros H. inversion H. }
  set (fs1 := <[_dst := []]> fs).
  set (input := default [] (fs1 !! _src)).
  set (total := Z.of_nat _).
  destruct (copy_loop_total env total (length input) 0%nat 0 input []
              (le_n _)) as (sigs & ops & res & -> & Hres).
  destruct res as [written|]; eexists; (split; [reflexivity|]);
    cbn [files io signals]; intros Hfail.
  - exfalso. destruct Hres as (_ & Hok & _).
    apply List.Exists_exists in Hfail. destruct Hfail as (op & Hin & Hop).
    rewrite List.Forall_forall in Hok. specialize (Hok op Hin). congruence.
  - destruct Hres as (_ & [Hsig|Hsig]);
      eexists; (split; [|split; [|split; [exact Hsig|]]]);
      try discriminate; try (left; reflexivity); try (right; reflexivity);
      destruct (ends_with_error _ _ Hsig) as [H1 H2];
      repeat split; try assumption; apply lookup_delete_eq.
Qed.

Lemma startCopy_failure_cleans_up_witness :
  let env := {| can_open_src := true; can_open_dst := true;
                read_fails := fun n => Nat.eqb n 0;
                write_ret := fun _ len => len;
                percent := fun current total => 100 * current / total |} in
  let image := [Byte.x01; Byte.x02; Byte.x03] in
  let fs := <["/storage/sdcard1/update.zip"%string := image]>
              (<["/mnt/sdcard/update.zip"%string := [Byte.xff]]> ∅) in
  exists r : Result,
    startCopy "/storage/sdcard1/update.zip" "/mnt/sdcard/update.zip" env fs
    = Some r /\
    List.Exists (fun op => io_failed op = true) (io r) /\
    files r !! "/mnt/sdcard/update.zip"%string = None.
Proof.
  intros env image fs.
  destruct (startCopy_failure_cleans_up "/storage/sdcard1/update.zip"
              "/mnt/sdcard/update.zip" env fs) as (r & Hr & H).
  assert (Hio : List.Exists (fun op => io_failed op = true) (io r)).
  { assert (Hops : io r = [io_read READ_CHUNK_SIZE (-1)]).
    { vm_compute in Hr. injection Hr as <-. reflexivity. }
    rewrite Hops. constructor. reflexivity. }
  exists r. split; [exact Hr|]. split; [exact Hio|].
  destruct (H Hio) as (msg & _ & _ & _ & _ & _ & Hgone). exact Hgone.
Defined.

End FileCopyFacts.

(* ================================================================== *)
(** ** The update dialog *)
(* ================================================================== *)

Section UpdateDialogFacts.
Import Controller.





Lemma check_dates_true (env : Env) (s : State) :
  (check_dates env s).1 = true ->
  settings_UpdateCheck (check_dates env s).2 = Some (currentDate env).
Proof.
  unfold check_dates.
  destruct (default true (settings_SecondRun s)).
  - destruct (negb _); simpl; [reflexivity|discriminate].
  - destruct (internetActive env); simpl; [discriminate|].
    destruct (_ >? 29); simpl; [reflexivity|discriminate].
Qed.

Lemma check_firmware_true (env : Env) (s : State) :
  (check_firmware env s).1 = true ->
  settings_UpdateCheck (check_firmware env s).2 = Some (currentDate env).
Proof.
  unfold check_firmware. destruct (activeVehicle env) as [v|]; simpl;
    [|discriminate].
  destruct (negb _ && _); simpl; [reflexivity|discriminate].
Qed.

Lemma check_dates_flags (env : Env) (s : State) :
  _firstRun (check_dates env s).2 = _firstRun s /\
  _updateShown (check_dates env s).2 = _updateShown s.
Proof.
  unfold check_dates.
  destruct (default true (settings_SecondRun s)).
  - destruct (negb _); simpl; tauto.
  - destruct (internetActive env); simpl; [tauto|].
    destruct (_ >? 29); simpl; tauto.
Qed.

Lemma check_firmware_flags (env : Env) (s : State) :
  _firstRun (check_firmware env s).2 = _firstRun s.
Proof.
  unfold check_firmware. destruct (activeVehicle env) as [v|]; simpl;
    [|reflexivity].
  destruct (negb _ && _); reflexivity.
Qed.

(** X1.  The dialog is forced at most once per session: a call of
    [shouldWeShowUpdate] that returns [true] sets [_updateShown] and
    resets the update-check date in the settings to today, and every
    later call, whatever the dates, the network and the vehicle are by
    then, returns [false] and changes nothing. *)
Theorem shouldWeShowUpdate_once (env : Env) (s : State) :
  (shouldWeShowUpdate env s).1 = true ->
  let s' := (shouldWeShowUpdate env s).2 in
  _updateShown s' = true /\
  settings_UpdateCheck s' = Some (currentDate env) /\
  forall env' : Env, shouldWeShowUpdate env' s' = (false, s').
Proof.
  unfold shouldWeShowUpdate.
  destruct (_firstRun s || _updateShown s) eqn:Eg; [discriminate|].
  pose proof (check_dates_true env s) as Hd.
  destruct (check_dates env s) as [r1 s1]. simpl in Hd.
  destruct r1; simpl.
  - intros _. repeat split; [now apply Hd|].
    intros env'. simpl. now rewrite orb_true_r.
  - pose proof (check_firmware_true env s1) as Hf.
    destruct (check_firmware env s1) as [r2 s2]. simpl in *.
    intros ->. repeat split; [now apply Hf|].
    intros env'. simpl. now rewrite orb_true_r.
Qed.

Lemma shouldWeShowUpdate_once_witness :
  let env := {| currentDate := 2460000; year := fun d => d / 365;
                internetActive := false; activeVehicle := None |} in
  let s := {| wifi := {| Wifi._ssidList := []; Wifi._configurations := ∅;
                         Wifi._ssid := ""; Wifi._scanEnabled := false;
                         Wifi._scanningWiFi := false;
                         Wifi._bindingWiFi := false;
                         Wifi.settings_WifiConfig := ∅; Wifi.jni := [];
                         Wifi.timers := []; Wifi.emitted := [] |};
              _password := ""; _passwordSet := false; _scanTimer := None;
              _vehicle := None; _vehicleInReadyState := false;
              _firstRun := false; _updateShown := false;
              settings_FirstRun := Some false;
              settings_SecondRun := Some false;
              settings_UpdateCheck := Some 2459960;
              calls := []; timers := []; emitted := [] |} in
  (shouldWeShowUpdate env s).1 = true /\
  shouldWeShowUpdate env (shouldWeShowUpdate env s).2
  = (false, (shouldWeShowUpdate env s).2).
Proof.
  intros env s.
  assert (H : (shouldWeShowUpdate env s).1 = true) by reflexivity.
  split; [exact H|].
  exact (proj2 (proj2 (shouldWeShowUpdate_once env s H)) env).
Defined.






End UpdateDialogFacts.

(* ================================================================== *)
(** ** Pairing and the credential map *)
(* ================================================================== *)

Section PairingFacts.
Import Controller.

Lemma bindWIFI_wifi (b : Build) (name password : string) (s : State) :
  let s' := bindWIFI b name password s in
  Wifi._ssid (wifi s') = name /\
  Wifi._configurations (wifi s') = Wifi._configurations (wifi s) /\
  Wifi.settings_WifiConfig (wifi s') = Wifi.settings_WifiConfig (wifi s) /\
  Wifi._bindingWiFi (wifi s') = true /\
  Wifi._ssidList (wifi s') = [] /\
  Wifi._scanEnabled (wifi s') = false /\
  _scanTimer s' = None.
Proof.
  unfold bindWIFI. simpl.
  destruct (String.eqb password "");
    [destruct (Wifi._configurations (wifi s) !! name)|];
    destruct (Wifi.androidx86 (wifi_build b)); simpl; tauto.
Qed.

Lemma bindWIFI_password (b : Build) (name password : string) (s : State) :
  _password (bindWIFI b name password s)
  = if String.eqb password "" then
      default password (Wifi._configurations (wifi s) !! name)
    else password.
Proof.
  unfold bindWIFI. simpl.
  destruct (String.eqb password "");
    [destruct (Wifi._configurations (wifi s) !! name)|];
    destruct (Wifi.androidx86 (wifi_build b)); reflexivity.
Qed.

Lemma delayedBind_frame (b : Build) (s : State) :
  wifi (_delayedBind b s) = wifi s /\
  _password (_delayedBind b s) = _password s /\
  emitted (_delayedBind b s) = emitted s.
Proof.
  unfold _delayedBind. destruct (Wifi.androidx86 (wifi_build b)); simpl; tauto.
Qed.

Lemma wifiConnected_wifi (s : State) :
  let s' := _wifiConnected s in
  Wifi._configurations (wifi s')
  = <[Wifi._ssid (wifi s) := _password s]> (Wifi._configurations (wifi s)) /\
  Wifi.persisted (Wifi._configurations (wifi s'))
    (Wifi.settings_WifiConfig (wifi s')) /\
  Wifi._bindingWiFi (wifi s') = false /\
  Wifi._ssid (wifi s') = Wifi._ssid (wifi s) /\
  _password s' = _password s.
Proof.
  split; [reflexivity|]. split; [|repeat split].
  exact (save_persisted
           (Wifi.set_configurations
              (<[Wifi._ssid (wifi s) := _password s]>
                 (Wifi._configurations (wifi s))) (wifi s))).
Qed.

(** X4.  A bind with a password that the camera accepts is remembered:
    after [bindWIFI(ssid, password)], [_delayedBind] and
    [_wifiConnected], the credential map holds the password under the
    SSID, the settings hold it too (for an SSID that is not empty),
    [_bindingWiFi] is cleared, and a later [bindWIFI(ssid, "")] binds
    with the stored password. *)
Theorem bind_connect_remembers (b : Build) (name password : string)
    (s : State) :
  password <> ""%string ->
  let s' := _wifiConnected (_delayedBind b (bindWIFI b name password s)) in
  Wifi._configurations (wifi s') !! name = Some password /\
  isWifiConfigured name s' = true /\
  (name <> ""%string ->
   Wifi.settings_WifiConfig (wifi s') !! name = Some password) /\
  Wifi._bindingWiFi (wifi s') = false /\
  _passwordSet s' = true /\
  _password (bindWIFI b name "" s') = password.
Proof.
  intros Hpw s'.
  assert (Hne : String.eqb password "" = false) by now apply String.eqb_neq.
  set (s1 := _delayedBind b (bindWIFI b name password s)) in *.
  assert (H1 : Wifi._ssid (wifi s1) = name /\ _password s1 = password).
  { subst s1. destruct (delayedBind_frame b (bindWIFI b name password s))
      as (-> & -> & _).
    rewrite bindWIFI_password, Hne.
    split; [apply (bindWIFI_wifi b name password s)|reflexivity]. }
  destruct H1 as [Hssid Hpass].
  destruct (wifiConnected_wifi s1) as (Hc & Hp & Hb & _ & _).
  fold s' in Hc, Hp, Hb. rewrite Hssid, Hpass in Hc.
  assert (Hl : Wifi._configurations (wifi s') !! name = Some password)
    by (rewrite Hc; apply lookup_insert_eq).
  split; [exact Hl|]. split; [|split; [|split; [exact Hb|split]]].
  - unfold isWifiConfigured. rewrite Hl. apply bool_decide_eq_true_2. eauto.
  - intros Hn. rewrite (Hp name).
    apply String.eqb_neq in Hn. now rewrite Hn.
  - subst s' s1. unfold _wifiConnected, _delayedBind, bindWIFI. simpl.
    rewrite Hne. destruct (Wifi.androidx86 (wifi_build b)); reflexivity.
  - rewrite bindWIFI_password, Hl. reflexivity.
Qed.

Lemma bind_connect_remembers_witness :
  let b := {| wifi_build := {| Wifi.androidx86 := true; Wifi.qt_debug := false;
                               Wifi.startScan_default := 0 |};
              android := true; planner := false |} in
  let s := {| wifi := {| Wifi._ssidList := []; Wifi._configurations := ∅;
                         Wifi._ssid := ""; Wifi._scanEnabled := true;
                         Wifi._scanningWiFi := false;
                         Wifi._bindingWiFi := false;
                         Wifi.settings_WifiConfig := ∅; Wifi.jni := [];
                         Wifi.timers := []; Wifi.emitted := [] |};
              _password := ""; _passwordSet := false; _scanTimer := Some 2000;
              _vehicle := None; _vehicleInReadyState := false;
              _firstRun := true; _updateShown := false;
              settings_FirstRun := None; settings_SecondRun := None;
              settings_UpdateCheck := None;
              calls := []; timers := []; emitted := [] |} in
  let s' := _wifiConnected (_delayedBind b (bindWIFI b "E90_A" "secret" s)) in
  Wifi._configurations (wifi s') !! "E90_A"%string = Some "secret"%string /\
  _password (bindWIFI b "E90_A" "" s') = "secret"%string.
Proof.
  intros b s s'.
  assert (Hpw : "secret"%string <> ""%string) by discriminate.
  destruct (bind_connect_remembers b "E90_A" "secret" s Hpw)
    as (H1 & _ & _ & _ & _ & H2).
  exact (conj H1 H2).
Defined.

Lemma load_lookup (group base : gmap string string) (key : string) :
  map_fold
    (fun (key value : string) (m : gmap string string) =>
       if has_slash key then m else <[key := value]> m)
    base group !! key
  = match group !! key with
    | Some value => if has_slash key then base !! key else Some value
    | None => base !! key
    end.
Proof.
  revert key.
  apply (map_fold_weak_ind
           (fun (r g : gmap string string) =>
              forall key, r !! key
                          = match g !! key with
                            | Some value =>
                                if has_slash key then base !! key
                                else Some value
                            | None => base !! key
                            end)).
  - intros key. now rewrite lookup_empty.
  - intros i x g r Hi IH key. destruct (decide (i = key)) as [->|Hne].
    + rewrite lookup_insert_eq. destruct (has_slash key) eqn:Es.
      * rewrite IH, Hi. reflexivity.
      * now rewrite lookup_insert_eq.
    + rewrite (lookup_insert_ne g) by assumption.
      destruct (has_slash i); [apply IH|].
      rewrite lookup_insert_ne by assumption. apply IH.
Qed.

(** X5.  The credential map survives a restart: when no stored SSID
    has a [/] in it, what the constructor of the next session loads after
    [_saveWifiConfigurations] is every entry but one under the empty
    SSID, which is never written; so the same map, when no password was
    stored under the empty SSID. *)
Theorem save_load_roundtrip (b : Build) (platform : string) (s : State) :
  (forall key, is_Some (Wifi._configurations (wifi s) !! key) ->
               has_slash key = false) ->
  let next := constructor b platform (on_wifi Wifi._saveWifiConfigurations s) in
  (forall key,
     Wifi._configurations (wifi next) !! key
     = if String.eqb key "" then None
       else Wifi._configurations (wifi s) !! key) /\
  (Wifi._configurations (wifi s) !! ""%string = None ->
   Wifi._configurations (wifi next) = Wifi._configurations (wifi s)).
Proof.
  intros Hslash next.
  assert (Hk : forall key,
             Wifi._configurations (wifi next) !! key
             = if String.eqb key "" then None
               else Wifi._configurations (wifi s) !! key).
  { intros key. subst next. unfold constructor, _loadWifiConfigurations.
    simpl. rewrite load_lookup, lookup_empty.
    pose proof (save_persisted (wifi s) key) as Hp. simpl in Hp.
    unfold Wifi._saveWifiConfigurations in Hp. simpl in Hp. rewrite Hp.
    destruct (String.eqb key "") eqn:Ek; [reflexivity|].
    destruct (Wifi._configurations (wifi s) !! key) as [v|] eqn:El;
      [|reflexivity].
    rewrite (Hslash key); [reflexivity|]. rewrite El. eauto. }
  split; [exact Hk|]. intros Hempty. apply map_eq. intros key.
  rewrite Hk. destruct (String.eqb key "") eqn:Ek; [|reflexivity].
  apply String.eqb_eq in Ek. subst key. now rewrite Hempty.
Qed.

Lemma save_load_roundtrip_witness :
  let b := {| wifi_build := {| Wifi.androidx86 := true; Wifi.qt_debug := false;
                               Wifi.startScan_default := 0 |};
              android := true; planner := false |} in
  let s := {| wifi := {| Wifi._ssidList := [];
                         Wifi._configurations :=
                           <["E90_A"%string := "pw1"%string]>
                             (<["CGOET_B"%string := "pw2"%string]> ∅);
                         Wifi._ssid := "E90_A"; Wifi._scanEnabled := false;
                         Wifi._scanningWiFi := false;
                         Wifi._bindingWiFi := false;
                         Wifi.settings_WifiConfig := ∅; Wifi.jni := [];
                         Wifi.timers := []; Wifi.emitted := [] |};
              _password := ""; _passwordSet := false; _scanTimer := None;
              _vehicle := None; _vehicleInReadyState := false;
              _firstRun := false; _updateShown := false;
              settings_FirstRun := None; settings_SecondRun := None;
              settings_UpdateCheck := None;
              calls := []; timers := []; emitted := [] |} in
  Wifi._configurations
    (wifi (constructor b "E90_A" (on_wifi Wifi._saveWifiConfigurations s)))
  = Wifi._configurations (wifi s).
Proof.
  intros b s.
  assert (Hslash : forall key,
             is_Some (Wifi._configurations (wifi s) !! key) ->
             has_slash key = false).
  { intros key. simpl.
    destruct (decide (key = "E90_A"%string)) as [->|H1]; [reflexivity|].
    destruct (decide (key = "CGOET_B"%string)) as [->|H2]; [reflexivity|].
    rewrite !lookup_insert_ne, lookup_empty by congruence.
    intros [v Hv]. discriminate. }
  apply (proj2 (save_load_roundtrip b "E90_A" s Hslash)). reflexivity.
Defined.

Lemma bound_state (b : Build) (name password : string) (s : State) :
  let bound := _delayedBind b (bindWIFI b name password s) in
  Wifi._ssid (wifi bound) = name /\
  Wifi._configurations (wifi bound) = Wifi._configurations (wifi s) /\
  Wifi._bindingWiFi (wifi bound) = true.
Proof.
  intros bound. subst bound.
  destruct (delayedBind_frame b (bindWIFI b name password s)) as (-> & _).
  destruct (bindWIFI_wifi b name password s) as (H1 & H2 & _ & H3 & _).
  auto.
Qed.

(** X6.  The bind timer only matters while the bind is pending.  When
    [_wifiConnected] came first, [_bindTimeout] changes nothing; when
    nothing came, it clears [_bindingWiFi], sends [bindTimeout], starts
    scanning again and leaves the credential map alone. *)
Theorem bindTimeout_only_while_binding (b : Build) (name password : string)
    (s : State) :
  let bound := _delayedBind b (bindWIFI b name password s) in
  _bindTimeout b (_wifiConnected bound) = _wifiConnected bound /\
  Wifi._bindingWiFi (wifi (_bindTimeout b bound)) = false /\
  Wifi._scanEnabled (wifi (_bindTimeout b bound)) = true /\
  emitted (_bindTimeout b bound) = emitted bound ++ [bindTimeout] /\
  Wifi._configurations (wifi (_bindTimeout b bound))
  = Wifi._configurations (wifi s).
Proof.
  intros bound. split.
  - unfold _bindTimeout.
    destruct (wifiConnected_wifi bound) as (_ & _ & -> & _). reflexivity.
  - destruct (bound_state b name password s) as (_ & Hc & Hb).
    fold bound in Hc, Hb. unfold _bindTimeout. rewrite Hb.
    cbn [wifi on_wifi set_wifi emit emitted].
    match goal with |- context [Wifi.startScan ?wb ?d ?w] =>
      destruct (startScan_frame wb d w) as (H1 & _ & H2 & _ & H3)
    end.
    cbv zeta in H1, H2, H3. rewrite H1, H2, H3. simpl.
    repeat split. exact Hc.
Qed.

Lemma authenticationError_map (wb : Wifi.Build) (w : Wifi.State) :
  Wifi._configurations (Wifi._authenticationError wb w)
  = delete (Wifi._ssid w) (Wifi._configurations w) /\
  Wifi._ssid (Wifi._authenticationError wb w) = Wifi._ssid w /\
  Wifi._bindingWiFi (Wifi._authenticationError wb w) = false.
Proof.
  unfold Wifi._authenticationError.
  match goal with |- context [Wifi.startScan ?b ?d ?w0] =>
    destruct (startScan_frame b d w0) as (H1 & H2 & H3 & _)
  end.
  cbv zeta in H1, H2, H3. rewrite H1, H2, H3. clear H1 H2 H3.
  case_bool_decide as Hc; simpl; repeat split.
  symmetry. apply delete_id. now apply eq_None_not_Some.
Qed.

(** X7.  A password the camera rejects is not kept: after
    [bindWIFI(ssid, password)], [_delayedBind] and
    [_authenticationError], the SSID is not configured, whether or not a
    password was stored for it before, [isDefaultPwd] is false,
    [_bindingWiFi] is cleared, and the passwords of the other SSIDs are
    the ones stored before. *)
Theorem rejected_password_forgotten (b : Build) (name password : string)
    (s : State) :
  let s' := _authenticationError b
              (_delayedBind b (bindWIFI b name password s)) in
  isWifiConfigured name s' = false /\
  isDefaultPwd s' = false /\
  Wifi._bindingWiFi (wifi s') = false /\
  forall other, other <> name ->
    Wifi._configurations (wifi s') !! other
    = Wifi._configurations (wifi s) !! other.
Proof.
  intros s'. subst s'. unfold _authenticationError.
  set (bound := _delayedBind b (bindWIFI b name password s)).
  destruct (bound_state b name password s) as (Hn & Hc & _).
  fold bound in Hn, Hc.
  destruct (authenticationError_map (wifi_build b) (wifi bound))
    as (Hm & Hs & Hb).
  rewrite Hn, Hc in Hm. rewrite Hn in Hs.
  unfold isWifiConfigured, isDefaultPwd. cbn [wifi on_wifi set_wifi].
  rewrite Hm, Hs, Hb, lookup_delete_eq.
  split; [|split; [|split; [reflexivity|]]].
  - apply bool_decide_eq_false_2. intros [v Hv]. discriminate.
  - now destruct (String.eqb name "").
  - intros other Ho. now apply lookup_delete_ne.
Qed.

Lemma prefix_app (p1 p2 s : string) :
  String.prefix (p1 ++ p2) s = true -> String.prefix p1 s = true.
Proof.
  revert p1. induction s as [|c s IH]; intros [|a p1]; simpl; try reflexivity.
  - discriminate.
  - destruct (ascii_dec a c); [apply IH|discriminate].
Qed.

Lemma typhoon_prefix_camera (ssid : string) :
  Wifi.typhoon_prefix ssid = true ->
  connectedCamera ssid <> ""%string /\
  List.In (connectedCamera ssid) ["CGO-ET"; "E10T"; "E90"; "E50"]%string.
Proof.
  unfold Wifi.typhoon_prefix, connectedCamera.
  pose proof (prefix_app "E90" "_" ssid) as H90.
  pose proof (prefix_app "E50" "_" ssid) as H50.
  change ("E90" ++ "_")%string with "E90_"%string in H90.
  change ("E50" ++ "_")%string with "E50_"%string in H50.
  destruct (String.prefix "CGOET" ssid);
    [intros _; split; [discriminate|simpl; tauto]|].
  destruct (String.prefix "E10T" ssid);
    [intros _; split; [discriminate|simpl; tauto]|].
  destruct (String.prefix "E90_" ssid).
  { rewrite (H90 eq_refl). intros _. split; [discriminate|simpl; tauto]. }
  destruct (String.prefix "E50_" ssid); [|discriminate].
  rewrite (H50 eq_refl). intros _.
  destruct (String.prefix "E90" ssid); split; try discriminate;
    simpl; tauto.
Qed.

Lemma isTyphoon_prefix (ssid : string) :
  isTyphoon ssid = Wifi.typhoon_prefix ssid.
Proof.
  unfold isTyphoon, Wifi.typhoon_prefix.
  now destruct (String.prefix "CGOET" ssid || String.prefix "E10T" ssid
                || String.prefix "E90_" ssid || String.prefix "E50_" ssid).
Qed.

(** X8.  [isTyphoon] and the release build's scan filter are the same
    test, and every SSID they accept has a camera name: for it
    [connectedCamera] returns one of CGO-ET, E10T, E90 and E50, never the
    empty string. *)
Theorem isTyphoon_has_camera (ssid : string) :
  isTyphoon ssid = Wifi.typhoon_prefix ssid /\
  (isTyphoon ssid = true ->
   connectedCamera ssid <> ""%string /\
   List.In (connectedCamera ssid) ["CGO-ET"; "E10T"; "E90"; "E50"]%string).
Proof.
  split; [apply isTyphoon_prefix|].
  rewrite isTyphoon_prefix. apply typhoon_prefix_camera.
Qed.

Lemma isTyphoon_has_camera_witness :
  isTyphoon "E50_123456" = true /\ connectedCamera "E50_123456" <> ""%string.
Proof.
  assert (H : isTyphoon "E50_123456" = true) by reflexivity.
  exact (conj H (proj1 (proj2 (isTyphoon_has_camera "E50_123456") H))).
Defined.

Lemma endsWith_quote_app (s : string) :
  endsWith_quote (s ++ String quote EmptyString) = true.
Proof.
  induction s as [|c s IH]; [reflexivity|].
  simpl. destruct s; [exact IH|exact IH].
Qed.

Lemma remove_last_app (s : string) (c : ascii) :
  remove_last (s ++ String c EmptyString) = s.
Proof.
  induction s as [|a s IH]; [reflexivity|].
  simpl. destruct s; simpl in *; [reflexivity|]. now rewrite IH.
Qed.

(** X9.  On the controller build [connectedSSID] takes one pair of
    double quotes off the name the platform reports: a quoted name comes
    back as it is between the quotes, whatever it contains. *)
Theorem connectedSSID_unquotes (b : Build) (name : string) :
  Wifi.androidx86 (wifi_build b) = true ->
  connectedSSID b (String quote (name ++ String quote EmptyString)) = name.
Proof.
  intros Ha. unfold connectedSSID. rewrite Ha.
  change (Ascii.eqb quote quote) with true. cbv iota.
  now rewrite endsWith_quote_app, remove_last_app.
Qed.

Lemma connectedSSID_unquotes_witness :
  let b := {| wifi_build := {| Wifi.androidx86 := true; Wifi.qt_debug := false;
                               Wifi.startScan_default := 0 |};
              android := true; planner := false |} in
  connectedSSID b (String quote ("E90_123456" ++ String quote EmptyString))
  = "E90_123456"%string.
Proof.
  intros b. exact (connectedSSID_unquotes b "E90_123456" eq_refl).
Defined.

(** X10.  [bindWIFI] ends the scan cycle: the list is emptied, the scan
    timer is stopped, and a [_scanComplete] that arrives afterwards does
    not start it again; while scanning is enabled, each [_scanComplete]
    arms it with 2000 ms. *)
Theorem bindWIFI_ends_scan_cycle (b : Build) (name password : string)
    (s : State) :
  let s' := bindWIFI b name password s in
  Wifi._ssidList (wifi s') = [] /\
  _scanTimer s' = None /\
  _scanTimer (_scanComplete s') = None /\
  Wifi._scanningWiFi (wifi (_scanComplete s')) = false /\
  (Wifi._scanEnabled (wifi s) = true -> _scanTimer (_scanComplete s) = Some 2000).
Proof.
  intros s'. destruct (bindWIFI_wifi b name password s)
    as (_ & _ & _ & _ & Hl & He & Ht).
  fold s' in Hl, He, Ht. unfold _scanComplete. rewrite He. simpl.
  repeat split; try assumption. intros ->. reflexivity.
Qed.

(** X11.  [setWiFiPassword] does nothing without a vehicle.  With one,
    the new password is stored under the current SSID and written to the
    settings, the first run is over and the second run is armed, the
    restart timer is armed exactly for [restart] on the controller build,
    and for an SSID that is not empty [isDefaultPwd] then tells whether
    the password is 1234567890. *)
Theorem setWiFiPassword_stores (b : Build) (pwd : string) (restart : bool)
    (s : State) :
  (_vehicle s = None -> setWiFiPassword b pwd restart s = s) /\
  (is_Some (_vehicle s) ->
   let s' := setWiFiPassword b pwd restart s in
   Wifi._configurations (wifi s')
   = <[Wifi._ssid (wifi s) := pwd]> (Wifi._configurations (wifi s)) /\
   Wifi.persisted (Wifi._configurations (wifi s'))
     (Wifi.settings_WifiConfig (wifi s')) /\
   _password s' = pwd /\
   _firstRun s' = false /\
   settings_FirstRun s' = Some false /\
   settings_SecondRun s' = Some true /\
   timers s'
   = timers s ++ (if restart && Wifi.androidx86 (wifi_build b)
                  then [(500, slot_restart)] else []) /\
   (Wifi._ssid (wifi s) <> ""%string ->
    isDefaultPwd s' = String.eqb pwd "1234567890")).
Proof.
  unfold setWiFiPassword. split.
  - intros ->. reflexivity.
  - intros [v ->].
    pose proof (save_persisted
                  (Wifi.set_configurations
                     (<[Wifi._ssid (wifi s) := pwd]>
                        (Wifi._configurations (wifi s))) (wifi s))) as Hp.
    destruct (android b), restart, (Wifi.androidx86 (wifi_build b));
      cbn [andb];
      (split; [reflexivity|]); (split; [exact Hp|]);
      (repeat (split; [first [reflexivity | apply List.app_nil_r
                              | symmetry; apply List.app_nil_r]|]));
      intros Hne; unfold isDefaultPwd; simpl;
      apply String.eqb_neq in Hne; rewrite Hne, lookup_insert_eq;
      reflexivity.
Qed.

Lemma setWiFiPassword_stores_witness :
  let b := {| wifi_build := {| Wifi.androidx86 := true; Wifi.qt_debug := false;
                               Wifi.startScan_default := 0 |};
              android := true; planner := false |} in
  let s := {| wifi := {| Wifi._ssidList := []; Wifi._configurations := ∅;
                         Wifi._ssid := "E90_A"; Wifi._scanEnabled := false;
                         Wifi._scanningWiFi := false;
                         Wifi._bindingWiFi := false;
                         Wifi.settings_WifiConfig := ∅; Wifi.jni := [];
                         Wifi.timers := []; Wifi.emitted := [] |};
              _password := "1234567890"; _passwordSet := true;
              _scanTimer := None;
              _vehicle := Some 1; _vehicleInReadyState := true;
              _firstRun := true; _updateShown := false;
              settings_FirstRun := None; settings_SecondRun := None;
              settings_UpdateCheck := None;
              calls := []; timers := []; emitted := [] |} in
  isDefaultPwd (setWiFiPassword b "fresh-secret" true s) = false /\
  settings_SecondRun (setWiFiPassword b "fresh-secret" true s) = Some true.
Proof.
  intros b s.
  assert (Hv : is_Some (_vehicle s)) by (simpl; eauto).
  destruct (proj2 (setWiFiPassword_stores b "fresh-secret" true s) Hv)
    as (_ & _ & _ & _ & _ & H2 & _ & Hd).
  split; [|exact H2]. rewrite Hd; [reflexivity|discriminate].
Defined.

Lemma vehicleAdded_vehicle (b : Build) (v : Z) (s : State) :
  _vehicle (_vehicleAdded b v s)
  = match _vehicle s with Some v0 => Some v0 | None => Some v end.
Proof.
  unfold _vehicleAdded.
  destruct (_vehicle s) as [v0|] eqn:E; simpl;
    destruct (negb (planner b) && negb (_passwordSet s)); simpl;
    now rewrite ?E.
Qed.

(** X12.  One vehicle is tracked at a time, the first to arrive: a
    second vehicle added while it is there is not tracked, and its
    removal changes nothing; the removal of the tracked vehicle clears
    it and the ready flag. *)
Theorem first_vehicle_tracked (b : Build) (v1 v2 : Z) (s : State) :
  _vehicle s = None -> v1 <> v2 ->
  let s1 := _vehicleAdded b v2 (_vehicleAdded b v1 s) in
  _vehicle s1 = Some v1 /\
  _vehicleRemoved v2 s1 = s1 /\
  _vehicle (_vehicleRemoved v1 (_vehicleReady true s1)) = None /\
  _vehicleInReadyState (_vehicleRemoved v1 (_vehicleReady true s1)) = false.
Proof.
  intros Hv Hne s1.
  assert (H1 : _vehicle s1 = Some v1).
  { subst s1. now rewrite !vehicleAdded_vehicle, Hv. }
  split; [exact H1|]. split.
  - unfold _vehicleRemoved. rewrite H1.
    replace (v1 =? v2) with false by lia. reflexivity.
  - unfold _vehicleRemoved, _vehicleReady. simpl. rewrite H1. simpl.
    rewrite H1, Z.eqb_refl. split; reflexivity.
Qed.

Lemma first_vehicle_tracked_witness :
  let b := {| wifi_build := {| Wifi.androidx86 := true; Wifi.qt_debug := false;
                               Wifi.startScan_default := 0 |};
              android := true; planner := false |} in
  let s := {| wifi := {| Wifi._ssidList := []; Wifi._configurations := ∅;
                         Wifi._ssid := ""; Wifi._scanEnabled := false;
                         Wifi._scanningWiFi := false;
                         Wifi._bindingWiFi := false;
                         Wifi.settings_WifiConfig := ∅; Wifi.jni := [];
                         Wifi.timers := []; Wifi.emitted := [] |};
              _password := ""; _passwordSet := false; _scanTimer := None;
              _vehicle := None; _vehicleInReadyState := false;
              _firstRun := true; _updateShown := false;
              settings_FirstRun := None; settings_SecondRun := None;
              settings_UpdateCheck := None;
              calls := []; timers := []; emitted := [] |} in
  _vehicle (_vehicleAdded b 2 (_vehicleAdded b 1 s)) = Some 1.
Proof.
  intros b s.
  exact (proj1 (first_vehicle_tracked b 1 2 s eq_refl ltac:(discriminate))).
Defined.

(** X26.  In a release build, whatever the scan reports, every network
    in the list [startScan] and [_newSSID] build has one of the four
    camera prefixes, and so a camera name. *)
Theorem release_scan_lists_cameras (wb : Wifi.Build) (delay : Z)
    (reports : list (string * Z)) (w : Wifi.State) :
  Wifi.qt_debug wb = false ->
  forall item,
    List.In item
      (Wifi._ssidList (Wifi.newSSIDs wb reports (Wifi.startScan wb delay w))) ->
    Wifi.typhoon_prefix (Wifi.ssid item) = true /\
    connectedCamera (Wifi.ssid item) <> ""%string.
Proof.
  intros Hq item Hin.
  destruct (newSSIDs_inv wb reports _ (startScan_inv wb delay w)) as [_ Hacc].
  assert (Ht : Wifi.typhoon_prefix (Wifi.ssid item) = true).
  { specialize (Hacc (Wifi.ssid item)). unfold Wifi.accepted in Hacc.
    rewrite Hq in Hacc. apply Hacc. unfold Wifi.ssids. now apply List.in_map. }
  split; [exact Ht|]. now apply typhoon_prefix_camera.
Qed.

Lemma release_scan_lists_cameras_witness :
  let wb := {| Wifi.androidx86 := true; Wifi.qt_debug := false;
               Wifi.startScan_default := 0 |} in
  let w := {| Wifi._ssidList := []; Wifi._configurations := ∅;
              Wifi._ssid := ""; Wifi._scanEnabled := false;
              Wifi._scanningWiFi := false; Wifi._bindingWiFi := false;
              Wifi.settings_WifiConfig := ∅; Wifi.jni := [];
              Wifi.timers := []; Wifi.emitted := [] |} in
  let reports := [("HomeNetwork", -20); ("E90_123456", -40)]%string in
  Wifi._ssidList (Wifi.newSSIDs wb reports (Wifi.startScan wb 0 w))
  = [{| Wifi.ssid := "E90_123456"; Wifi.rssi := -40 |}] /\
  connectedCamera "E90_123456" <> ""%string.
Proof.
  intros wb w reports. split; [reflexivity|].
  exact (proj2 (release_scan_lists_cameras wb 0 reports w eq_refl
                  {| Wifi.ssid := "E90_123456"; Wifi.rssi := -40 |}
                  (or_introl eq_refl))).
Defined.

(** X27.  The first run lasts until it is reset, across restarts: the
    constructor takes [_firstRun] from the settings, true when the key
    was never written and false in every session after one that ran
    [_resetFirstRun]; and as long as it is true [shouldWeShowUpdate]
    returns [false] and changes nothing. *)
Theorem first_run_persists (b : Build) (platform : string) (last : State)
    (env : Env) :
  _firstRun (constructor b platform last)
  = default true (settings_FirstRun last) /\
  (settings_FirstRun last = None ->
   shouldWeShowUpdate env (constructor b platform last)
   = (false, constructor b platform last)) /\
  (forall skipSecond,
     _firstRun (constructor b platform (_resetFirstRun skipSecond last))
     = false).
Proof.
  split; [reflexivity|]. split.
  - intros H. unfold shouldWeShowUpdate.
    assert (Hf : _firstRun (constructor b platform last) = true)
      by (unfold constructor; simpl; now rewrite H).
    now rewrite Hf.
  - intros skipSecond. unfold constructor, _resetFirstRun. simpl.
    now destruct skipSecond.
Qed.

Lemma first_run_persists_witness :
  let b := {| wifi_build := {| Wifi.androidx86 := true; Wifi.qt_debug := false;
                               Wifi.startScan_default := 0 |};
              android := true; planner := false |} in
  let fresh := {| wifi := {| Wifi._ssidList := []; Wifi._configurations := ∅;
                             Wifi._ssid := ""; Wifi._scanEnabled := false;
                             Wifi._scanningWiFi := false;
                             Wifi._bindingWiFi := false;
                             Wifi.settings_WifiConfig := ∅; Wifi.jni := [];
                             Wifi.timers := []; Wifi.emitted := [] |};
                  _password := ""; _passwordSet := false; _scanTimer := None;
                  _vehicle := None; _vehicleInReadyState := false;
                  _firstRun := true; _updateShown := false;
                  settings_FirstRun := None; settings_SecondRun := None;
                  settings_UpdateCheck := None;
                  calls := []; timers := []; emitted := [] |} in
  let env := {| currentDate := 2460000; year := fun d => d / 365;
                internetActive := false;
                activeVehicle := Some {| major := 1; minor := 0; patch := 0 |} |} in
  (shouldWeShowUpdate env (constructor b "" fresh)).1 = false.
Proof.
  intros b fresh env.
  exact (f_equal fst
           (proj1 (proj2 (first_run_persists b "" fresh env)) eq_refl)).
Defined.

End PairingFacts.

(* ================================================================== *)
(** ** Distance sensor, obstacle switch and raw channels *)
(* ================================================================== *)

Section SensorFacts.
Import Sensors.

Lemma distanceSensor_same (minDist maxDist curDist : Z) (s : State) :
  _distSensorMin s = minDist -> _distSensorMax s = maxDist ->
  _distSensorCur s = curDist ->
  _distanceSensor minDist maxDist curDist s = s.
Proof.
  intros <- <- <-. unfold _distanceSensor. now rewrite !Z.eqb_refl.
Qed.

(** X13.  [_distanceSensor] stores the three distances and sends a
    change signal for each one that differs from the stored value, in
    the order minimum, maximum, current, and for no other; a second
    report of the same distances changes nothing and sends nothing. *)
Theorem distanceSensor_reports_changes (minDist maxDist curDist : Z)
    (s : State) :
  let s' := _distanceSensor minDist maxDist curDist s in
  _distSensorMin s' = minDist /\
  _distSensorMax s' = maxDist /\
  _distSensorCur s' = curDist /\
  _obsState s' = _obsState s /\
  emitted s'
  = emitted s
    ++ (if _distSensorMin s =? minDist then [] else [distSensorMinChanged])
    ++ (if _distSensorMax s =? maxDist then [] else [distSensorMaxChanged])
    ++ (if _distSensorCur s =? curDist then [] else [distSensorCurChanged]) /\
  _distanceSensor minDist maxDist curDist s' = s'.
Proof.
  intros s'.
  assert (H : _distSensorMin s' = minDist /\ _distSensorMax s' = maxDist /\
              _distSensorCur s' = curDist /\ _obsState s' = _obsState s /\
              emitted s'
              = emitted s
                ++ (if _distSensorMin s =? minDist then []
                    else [distSensorMinChanged])
                ++ (if _distSensorMax s =? maxDist then []
                    else [distSensorMaxChanged])
                ++ (if _distSensorCur s =? curDist then []
                    else [distSensorCurChanged])).
  { subst s'. unfold _distanceSensor.
    destruct (_distSensorMin s =? minDist) eqn:E1;
      destruct (_distSensorMax s =? maxDist) eqn:E2;
      destruct (_distSensorCur s =? curDist) eqn:E3; simpl;
      rewrite ?E2, ?E3; simpl; rewrite ?E3; simpl;
      rewrite ?List.app_nil_r, <- ?List.app_assoc; simpl;
      repeat split; try reflexivity; try lia. }
  destruct H as (H1 & H2 & H3 & H4 & H5).
  repeat split; try assumption. now apply distanceSensor_same.
Qed.

(** X14.  [obsStateChanged] is sent exactly when [_obsState] changes.
    For the obstacle avoidance switch the new state is "on, and not on
    before": a report of ON sets it when it was clear and clears it when
    it was already set, any other state clears it; other switches leave
    it alone. *)
Theorem switch_signals_changes (switchId : SwitchId)
    (switchState : SwitchState) (s : State) :
  let s' := _switchStateChanged switchId switchState s in
  _obsState s'
  = (if is_obstacle switchId then is_on switchState && negb (_obsState s)
     else _obsState s) /\
  emitted s'
  = emitted s ++ (if Bool.eqb (_obsState s') (_obsState s) then []
                  else [obsStateChanged]) /\
  _distSensorMin s' = _distSensorMin s /\
  _distSensorMax s' = _distSensorMax s /\
  _distSensorCur s' = _distSensorCur s.
Proof.
  unfold _switchStateChanged.
  destruct (is_obstacle switchId), (is_on switchState),
    (_obsState s) eqn:E; simpl; rewrite ?E; simpl;
    rewrite ?List.app_nil_r; repeat split.
Qed.



End SensorFacts.

(* ================================================================== *)
(** ** [startCopy] and the files around it; the image update *)
(* ================================================================== *)

Section CopyFileFacts.
Import FileCopy.

(** How a run of [startCopy] ends: with the whole source in the
    destination and [copyDone] after the progress reports, or with one
    [copyError] after them. *)
Lemma startCopy_outcome (_src _dst : string) (env : Env)
    (fs : gmap string (list Byte.byte)) :
  exists r : Result,
    startCopy _src _dst env fs = Some r /\
    (forall p, p <> _dst -> files r !! p = fs !! p) /\
    ((exists content,
        fs !! _src = Some content /\ ends_with copyDone (signals r) /\
        (_src <> _dst -> files r !! _dst = Some content)) \/
     (exists msg, msg <> ""%string /\ ends_with (copyError msg) (signals r))).
Proof.
  unfold startCopy.
  destruct (can_open_src env && bool_decide (is_Some (fs !! _src))) eqn:Eo;
    cbn [negb].
  2:{ eexists. split; [reflexivity|]. split; [reflexivity|]. right.
      eexists. split; [|now exists []]. discriminate. }
  destruct (can_open_dst env); cbn [negb].
  2:{ eexists. split; [reflexivity|]. split; [reflexivity|]. right.
      eexists. split; [|now exists []]. discriminate. }
  apply andb_true_iff in Eo. destruct Eo as [_ Hs].
  apply bool_decide_eq_true_1 in Hs. destruct Hs as [content Hs].
  set (fs1 := <[_dst := []]> fs).
  set (input := default [] (fs1 !! _src)).
  set (total := Z.of_nat _).
  destruct (copy_loop_total env total (length input) 0%nat 0 input []
              (le_n _)) as (sigs & ops & res & -> & Hres).
  destruct res as [written|]; eexists; (split; [reflexivity|]);
    cbn [files io signals].
  - split.
    + intros p Hp. subst fs1. now rewrite !lookup_insert_ne by congruence.
    + left. exists content. destruct Hres as (Hw & _ & Hdone).
      split; [exact Hs|]. split; [exact Hdone|]. intros Hne.
      rewrite lookup_insert_eq. simpl in Hw. subst written input fs1.
      now rewrite lookup_insert_ne, Hs by congruence.
  - split.
    + intros p Hp. subst fs1.
      now rewrite lookup_delete_ne, lookup_insert_ne by congruence.
    + right. destruct Hres as (_ & [Hsig|Hsig]); eexists;
        (split; [|exact Hsig]); discriminate.
Qed.

(** X21.  [startCopy] writes to its destination path and to no other:
    whatever the platform does, it returns, and every other file,
    the source among them when it is another file, holds afterwards what
    it held before. *)
Theorem startCopy_touches_destination_only (_src _dst : string) (env : Env)
    (fs : gmap string (list Byte.byte)) :
  exists r : Result,
    startCopy _src _dst env fs = Some r /\
    (forall p, p <> _dst -> files r !! p = fs !! p) /\
    (_src <> _dst -> files r !! _src = fs !! _src).
Proof.
  destruct (startCopy_outcome _src _dst env fs) as (r & Hr & Hframe & _).
  exists r. split; [exact Hr|]. split; [exact Hframe|].
  intros Hne. now apply Hframe.
Qed.

(** X22.  When a file does not open, nothing is touched: if the source
    is missing or cannot be opened, or the destination cannot be opened,
    [startCopy] sends one [copyError] (about the source, when both fail),
    makes no read or write, and leaves every file, the destination
    included, as it was. *)
Theorem startCopy_open_failure (_src _dst : string) (env : Env)
    (fs : gmap string (list Byte.byte)) :
  can_open_src env = false \/ fs !! _src = None \/ can_open_dst env = false ->
  exists msg : string,
    startCopy _src _dst env fs
    = Some {| signals := [copyError msg]; io := []; files := fs |} /\
    (msg = "Error opening firmware update file."%string
     \/ msg = "Error opening firmware destination file."%string) /\
    (can_open_src env = false \/ fs !! _src = None ->
     msg = "Error opening firmware update file."%string).
Proof.
  intros H. unfold startCopy.
  destruct (can_open_src env && bool_decide (is_Some (fs !! _src))) eqn:Eo;
    cbn [negb].
  - apply andb_true_iff in Eo. destruct Eo as [Hc Hs].
    apply bool_decide_eq_true_1 in Hs. destruct Hs as [content Hs].
    destruct H as [H|[H|H]]; [congruence|congruence|].
    rewrite H. cbn [negb]. eexists. split; [reflexivity|].
    split; [now right|]. intros [H'|H']; congruence.
  - eexists. split; [reflexivity|]. split; [now left|]. reflexivity.
Qed.

Lemma startCopy_open_failure_witness :
  let env := {| can_open_src := true; can_open_dst := false;
                read_fails := fun _ => false;
                write_ret := fun _ len => len;
                percent := fun current total => 100 * current / total |} in
  let fs := <["in"%string := [Byte.x01]]> (<["out"%string := [Byte.x02]]> ∅) in
  exists msg : string,
    startCopy "in" "out" env fs
    = Some {| signals := [copyError msg]; io := []; files := fs |}.
Proof.
  intros env fs.
  destruct (startCopy_open_failure "in" "out" env fs
              (or_intror (or_intror eq_refl))) as (msg & H & _).
  exists msg. exact H.
Defined.

End CopyFileFacts.

Section UpdateFacts.
Import Update.

Lemma deliver_progress (a : bool) (percents : list Z) (s : State) :
  let s' := fold_left (fun s sig => deliver a sig s)
              (map FileCopy.copyProgress percents) s in
  _updateError s' = _updateError s /\ _pFileCopy s' = _pFileCopy s /\
  jni s' = jni s /\ timers s' = timers s.
Proof.
  revert s. induction percents as [|p percents IH]; intros s; simpl;
    [tauto|].
  destruct (IH (_imageUpdateProgress p s)) as (-> & -> & -> & ->).
  simpl. tauto.
Qed.

Lemma deliver_ends_with (a : bool) (final : FileCopy.Signal)
    (sigs : list FileCopy.Signal)
    (s : State) :
  FileCopy.ends_with final sigs ->
  exists s0,
    fold_left (fun s sig => deliver a sig s) sigs s = deliver a final s0 /\
    _updateError s0 = _updateError s /\ _pFileCopy s0 = _pFileCopy s /\
    jni s0 = jni s /\ timers s0 = timers s.
Proof.
  intros [percents ->]. rewrite List.fold_left_app. simpl.
  eexists. split; [reflexivity|]. apply deliver_progress.
Qed.

Lemma endCopyThread_frame (s : State) :
  _pFileCopy (_endCopyThread s) = None /\
  _updateError (_endCopyThread s) = _updateError s /\
  jni (_endCopyThread s) = jni s /\ timers (_endCopyThread s) = timers s.
Proof.
  unfold _endCopyThread. destruct (_pFileCopy s) eqn:E; simpl; tauto.
Qed.

(** X16.  On the controller build an update run always ends with the
    copier released, and in one of two ways: the platform's
    [updateImage] is called, once, with no error message, and then the
    update file is in place, whole, at the destination; or [updateImage]
    is not called and an error message is set.  The controller is never
    sent to update from a partial copy. *)
Theorem update_run_outcome (env : FileCopy.Env) (fs : gmap string (list Byte.byte))
    (s : State) :
  exists (fs' : gmap string (list Byte.byte)) (s' : State),
    update_run true env fs s = Some (fs', s') /\
    _pFileCopy s' = None /\
    ((jni s' = jni s ++ ["updateImage"%string] /\
      _updateError s' = ""%string /\
      exists image, fs !! kUpdateFile = Some image
                    /\ fs' !! kUpdateDest = Some image) \/
     (jni s' = jni s /\ _updateError s' <> ""%string)).
Proof.
  unfold update_run, updateSystemImage, checkForUpdate.
  case_bool_decide as Hf.
  - cbn [copy_thread _pFileCopy singleShot emit set_pFileCopy].
    destruct (startCopy_outcome kUpdateFile kUpdateDest env fs)
      as (r & -> & _ & Hout).
    eexists _, _. split; [reflexivity|].
    destruct Hout as [(image & Hi & Hdone & Hdst)|(msg & Hm & Herr)].
    + destruct (deliver_ends_with true _ _
                  (singleShot 100 slot_startCopy
                     (emit updatingChanged
                        (set_pFileCopy (Some (kUpdateFile, kUpdateDest))
                           (emit updateProgressChanged
                              (emit updateErrorChanged
                                 (set_updateDone false
                                    (set_updateProgress 0
                                       (set_updateError "" s))))))))
                  Hdone)
        as (s0 & -> & He & _ & Hj & _).
      cbn [deliver]. unfold _imageUpdateDone.
      destruct (endCopyThread_frame s0) as (Hp & He' & Hj' & _).
      cbn [_pFileCopy _updateError jni call_jni].
      rewrite Hp, He', Hj', He, Hj. simpl.
      split; [reflexivity|]. left. split; [reflexivity|].
      split; [reflexivity|]. exists image. split; [exact Hi|].
      apply Hdst. discriminate.
    + destruct (deliver_ends_with true _ _
                  (singleShot 100 slot_startCopy
                     (emit updatingChanged
                        (set_pFileCopy (Some (kUpdateFile, kUpdateDest))
                           (emit updateProgressChanged
                              (emit updateErrorChanged
                                 (set_updateDone false
                                    (set_updateProgress 0
                                       (set_updateError "" s))))))))
                  Herr)
        as (s0 & -> & _ & _ & Hj & _).
      cbn [deliver]. unfold _imageUpdateError.
      match goal with |- context [_endCopyThread ?x] =>
        destruct (endCopyThread_frame x) as (Hp & He' & Hj' & _)
      end.
      rewrite Hp, He', Hj'. simpl. rewrite Hj. simpl.
      split; [reflexivity|]. right. split; [reflexivity|exact Hm].
  - unfold _imageUpdateError.
    match goal with |- context [_endCopyThread ?x] =>
      destruct (endCopyThread_frame x) as (Hp & He' & Hj' & _);
      set (s1 := _endCopyThread x) in *
    end.
    unfold copy_thread. rewrite Hp. eexists _, _. split; [reflexivity|].
    split; [exact Hp|]. right. rewrite He', Hj'. simpl.
    split; [reflexivity|discriminate].
Qed.



End UpdateFacts.

(* ================================================================== *)
(** ** Media selection *)
(* ================================================================== *)

Section SelectionFacts.
Import StdSort Media MediaSelect.

Lemma setSelected_list (i : nat) (sel : bool) (s : State) :
  _mediaList (setSelected i sel s) = set_flag i sel (_mediaList s).
Proof.
  unfold setSelected, set_flag.
  destruct (_mediaList s !! i) as [item|] eqn:E; [|reflexivity].
  destruct (Bool.eqb (selected item) sel) eqn:Eb; simpl.
  - symmetry. apply list_insert_id. rewrite E. f_equal.
    apply Bool.eqb_prop in Eb. destruct item. simpl in *. now subst.
  - now destruct sel.
Qed.

Lemma setSelected_browse (i : nat) (sel : bool) (s : State) :
  _browseVideos (setSelected i sel s) = _browseVideos s.
Proof.
  unfold setSelected. destruct (_mediaList s !! i) as [item|]; [|reflexivity].
  destruct (negb _); [|reflexivity]. now destruct sel.
Qed.

Lemma selected_count_cons (x : TyphoonMediaItem) (l : list TyphoonMediaItem) :
  selected_count (x :: l)
  = (if selected x then 1 else 0) + selected_count l.
Proof.
  unfold selected_count. simpl. destruct (selected x); simpl; lia.
Qed.

Lemma selected_count_insert (l : list TyphoonMediaItem) (i : nat)
    (old x : TyphoonMediaItem) :
  l !! i = Some old ->
  selected_count (<[i := x]> l)
  = selected_count l - (if selected old then 1 else 0)
    + (if selected x then 1 else 0).
Proof.
  revert i. induction l as [|a l IH]; intros [|i] H; try discriminate.
  - simpl in H. inversion H; subst. simpl.
    rewrite !selected_count_cons. lia.
  - simpl in H. simpl. rewrite !selected_count_cons, (IH i H). lia.
Qed.

Lemma setSelected_inv (i : nat) (sel : bool) (s : State) :
  count_inv s -> count_inv (setSelected i sel s).
Proof.
  unfold count_inv, setSelected. intros H.
  destruct (_mediaList s !! i) as [item|] eqn:E; [|exact H].
  destruct (Bool.eqb (selected item) sel) eqn:Eb; [exact H|].
  cbn [negb]. destruct sel; simpl;
    rewrite (selected_count_insert _ _ _ _ E); simpl;
    destruct (selected item); try discriminate; lia.
Qed.

Lemma setSelected_all_inv (sel : bool) (idxs : list nat) (s : State) :
  count_inv s ->
  count_inv (fold_left (fun s i => setSelected i sel s) idxs s).
Proof.
  revert s. induction idxs as [|i idxs IH]; intros s H; [exact H|].
  simpl. apply IH. now apply setSelected_inv.
Qed.

Lemma setSelected_all_list (sel : bool) (idxs : list nat) (s : State) :
  _mediaList (fold_left (fun s i => setSelected i sel s) idxs s)
  = fold_left (fun l i => set_flag i sel l) idxs (_mediaList s).
Proof.
  revert s. induction idxs as [|i idxs IH]; intros s; [reflexivity|].
  simpl. now rewrite IH, setSelected_list.
Qed.

Lemma set_flag_next (sel : bool) (done l : list TyphoonMediaItem)
    (x : TyphoonMediaItem) :
  set_flag (length done) sel (done ++ x :: l)
  = (done ++ [with_flag sel x]) ++ l.
Proof.
  unfold set_flag. rewrite list_lookup_middle by reflexivity.
  rewrite insert_app_r_alt by lia. rewrite Nat.sub_diag. simpl.
  now rewrite <- List.app_assoc.
Qed.

Lemma set_flag_all (sel : bool) (l done : list TyphoonMediaItem) :
  fold_left (fun l i => set_flag i sel l) (seq (length done) (length l))
    (done ++ l)
  = done ++ map (with_flag sel) l.
Proof.
  revert done. induction l as [|x l IH]; intros done; [reflexivity|].
  simpl. rewrite set_flag_next.
  replace (S (length done)) with (length (done ++ [with_flag sel x]))
    by (rewrite List.length_app; simpl; lia).
  rewrite IH. now rewrite <- List.app_assoc.
Qed.

Lemma selected_count_flags (sel : bool) (l : list TyphoonMediaItem) :
  selected_count (map (with_flag sel) l)
  = if sel then Z.of_nat (length l) else 0.
Proof.
  induction l as [|x l IH]; [now destruct sel|].
  cbn [map]. rewrite selected_count_cons, IH.
  cbn [with_flag selected length]. destruct sel; lia.
Qed.

Lemma unselected_count (l : list TyphoonMediaItem) :
  (forall x, List.In x l -> selected x = false) -> selected_count l = 0.
Proof.
  induction l as [|x l IH]; intros H; [reflexivity|].
  rewrite selected_count_cons, (H x (or_introl eq_refl)), IH; [lia|].
  intros y Hy. apply H. now right.
Qed.

Lemma append_all_frame (names : list string) (s : State) :
  let s' := fold_left
              (fun s fileName =>
                 appendMediaItem {| fileName := fileName; selected := false |} s)
              names s in
  _selectedCount s' = _selectedCount s /\ _browseVideos s' = _browseVideos s.
Proof.
  revert s. induction names as [|n names IH]; intros s; simpl; [tauto|].
  destruct (IH (appendMediaItem {| fileName := n; selected := false |} s))
    as [-> ->]. simpl. tauto.
Qed.

Lemma refresh_unselected (env : Env) (s : State) :
  _selectedCount (refreshMeadiaList env s) = 0 /\
  _browseVideos (refreshMeadiaList env s) = _browseVideos s /\
  forall x, List.In x (_mediaList (refreshMeadiaList env s)) ->
            selected x = false.
Proof.
  split; [|split].
  - unfold refreshMeadiaList. simpl.
    match goal with |- context [fold_left ?f ?l ?s0] =>
      destruct (append_all_frame l s0) as [H _]
    end.
    simpl in H. exact H.
  - unfold refreshMeadiaList. simpl.
    match goal with |- context [fold_left ?f ?l ?s0] =>
      destruct (append_all_frame l s0) as [_ H]
    end.
    simpl in H. exact H.
  - rewrite refresh_mediaList. intros x Hx.
    eapply Permutation_in in Hx; [|symmetry; apply std_sort_perm].
    apply List.in_map_iff in Hx. destruct Hx as (n & <- & _). reflexivity.
Qed.

(** X18.  [_selectedCount] is the number of selected items of
    [_mediaList]: [refreshMeadiaList] makes it so (no item selected,
    count 0), and [setSelected] on a listed item and [selectAllMedia]
    keep it so. *)
Theorem selected_count_tracked (env : Env) (s : State) :
  count_inv (refreshMeadiaList env s) /\
  (count_inv s ->
   (forall i sel, count_inv (setSelected i sel s)) /\
   (forall sel, count_inv (selectAllMedia sel s))).
Proof.
  split.
  - destruct (refresh_unselected env s) as (Hc & _ & Hu).
    unfold count_inv. now rewrite Hc, unselected_count.
  - intros H. split.
    + intros i sel. now apply setSelected_inv.
    + intros sel. now apply setSelected_all_inv.
Qed.

Lemma selected_count_tracked_witness :
  let s := {| _mediaList := [{| fileName := "b.jpg"; selected := true |};
                             {| fileName := "a.jpg"; selected := false |}];
              _selectedCount := 1; _browseVideos := false; emitted := [] |} in
  count_inv s /\ count_inv (setSelected 1 true s)
  /\ count_inv (selectAllMedia false s).
Proof.
  intros s. assert (H : count_inv s) by reflexivity.
  destruct (proj2 (selected_count_tracked
                     {| savePath := ""; YUNEEC_VIDEO_EXTENSION := "";
                        dir_entries := fun _ => [] |} s) H) as [H1 H2].
  exact (conj H (conj (H1 1%nat true) (H2 false))).
Defined.

(** X19.  [selectAllMedia(selected)] gives every item of the list the
    flag and keeps the names and their order; when [_selectedCount] was
    the number of selected items before, it is the length of the list
    afterwards for [true] and 0 for [false]. *)
Theorem selectAllMedia_sets_all (sel : bool) (s : State) :
  let s' := selectAllMedia sel s in
  _mediaList s' = map (with_flag sel) (_mediaList s) /\
  fileNames (_mediaList s') = fileNames (_mediaList s) /\
  (forall item, List.In item (_mediaList s') -> selected item = sel) /\
  (count_inv s -> _selectedCount s' = if sel then mediaCount s else 0).
Proof.
  intros s'.
  assert (Hl : _mediaList s' = map (with_flag sel) (_mediaList s)).
  { subst s'. unfold selectAllMedia. rewrite setSelected_all_list.
    apply (set_flag_all sel (_mediaList s) []). }
  split; [exact Hl|]. split; [|split].
  - rewrite Hl. unfold fileNames. rewrite List.map_map. reflexivity.
  - rewrite Hl. intros item Hi. apply List.in_map_iff in Hi.
    destruct Hi as (x & <- & _). reflexivity.
  - intros H. assert (H' : count_inv s') by now apply setSelected_all_inv.
    unfold count_inv in H'. rewrite H', Hl, selected_count_flags.
    unfold mediaCount. reflexivity.
Qed.

Lemma selectAllMedia_sets_all_witness :
  let s := {| _mediaList := [{| fileName := "b.jpg"; selected := true |};
                             {| fileName := "a.jpg"; selected := false |}];
              _selectedCount := 1; _browseVideos := false; emitted := [] |} in
  count_inv s /\ _selectedCount (selectAllMedia true s) = 2.
Proof.
  intros s. assert (H : count_inv s) by reflexivity.
  exact (conj H (proj2 (proj2 (proj2 (selectAllMedia_sets_all true s))) H)).
Defined.

Lemma collect_all (l done : list TyphoonMediaItem) (acc : list string)
    (s : State) :
  _mediaList s = done ++ l ->
  let '(toDelete, s') :=
    fold_left (fun acc i => collect i acc)
      (seq (length done) (length l)) (acc, s) in
  toDelete = acc ++ map fileName (List.filter selected l) /\
  _browseVideos s' = _browseVideos s.
Proof.
  revert done acc s. induction l as [|x l IH]; intros done acc s Hl.
  - simpl. now rewrite List.app_nil_r.
  - cbn [length seq fold_left]. unfold collect at 2.
    rewrite Hl, list_lookup_middle by reflexivity.
    destruct (selected x) eqn:Ex.
    + specialize (IH (done ++ [with_flag false x]) (acc ++ [fileName x])
                    (setSelected (length done) false s)).
      rewrite List.length_app in IH. simpl in IH.
      replace (length done + 1)%nat with (S (length done)) in IH by lia.
      rewrite setSelected_list, Hl, set_flag_next in IH.
      specialize (IH eq_refl).
      destruct (fold_left _ _ _) as [toDelete s'].
      destruct IH as [-> ->]. simpl. rewrite Ex. simpl.
      rewrite <- List.app_assoc. split; [reflexivity|].
      apply setSelected_browse.
    + specialize (IH (done ++ [x]) acc s).
      rewrite List.length_app in IH. simpl in IH.
      replace (length done + 1)%nat with (S (length done)) in IH by lia.
      rewrite <- List.app_assoc in IH. specialize (IH Hl).
      destruct (fold_left _ _ _) as [toDelete s'].
      simpl. now rewrite Ex.
Qed.

Lemma QFile_remove_entries (removable : string -> bool) (dir n : string)
    (env : Env) :
  let env' := QFile_remove removable dir n env in
  savePath env' = savePath env /\
  YUNEEC_VIDEO_EXTENSION env' = YUNEEC_VIDEO_EXTENSION env /\
  forall e,
    List.In e (dir_entries env' dir) <->
    List.In e (dir_entries env dir) /\
    ~ (name e = n /\ removable (dir ++ "/" ++ name e)%string = true).
Proof.
  unfold QFile_remove.
  destruct (removable (dir ++ "/" ++ n)%string) eqn:Er; simpl.
  - split; [reflexivity|]. split; [reflexivity|]. intros e.
    rewrite String.eqb_refl, List.filter_In. split.
    + intros [Hin Hne]. split; [exact Hin|]. intros [Heq _].
      subst n. now rewrite String.eqb_refl in Hne.
    + intros [Hin Hno]. split; [exact Hin|].
      destruct (String.eqb (name e) n) eqn:E; [|reflexivity].
      apply String.eqb_eq in E. subst n. exfalso. now apply Hno.
  - split; [reflexivity|]. split; [reflexivity|]. intros e. split.
    + intros Hin. split; [exact Hin|]. intros [Heq Hr]. subst n. congruence.
    + tauto.
Qed.

Lemma remove_all_entries (removable : string -> bool) (s : State)
    (toDelete : list string) (env : Env) :
  let env' :=
    fold_left (fun env fileName =>
                 QFile_remove removable (photoPath env s) fileName env)
      toDelete env in
  savePath env' = savePath env /\
  YUNEEC_VIDEO_EXTENSION env' = YUNEEC_VIDEO_EXTENSION env /\
  forall e,
    List.In e (dir_entries env' (photoPath env s)) <->
    List.In e (dir_entries env (photoPath env s)) /\
    ~ (List.In (name e) toDelete /\
       removable (photoPath env s ++ "/" ++ name e)%string = true).
Proof.
  revert env. induction toDelete as [|n toDelete IH]; intros env.
  - simpl. split; [reflexivity|]. split; [reflexivity|]. intros e. tauto.
  - cbn [fold_left].
    destruct (QFile_remove_entries removable (photoPath env s) n env)
      as (Hs & Hx & He).
    set (env1 := QFile_remove removable (photoPath env s) n env) in *.
    assert (Hp : photoPath env1 s = photoPath env s)
      by (unfold photoPath; now rewrite Hs).
    destruct (IH env1) as (Hs' & Hx' & He'). cbv zeta in Hs', Hx', He'.
    rewrite Hp in He'. cbv zeta. rewrite Hs', Hx'.
    split; [exact Hs|]. split; [exact Hx|]. intros e.
    rewrite He', He. simpl. split.
    + intros [[Hin Hn1] Hn2]. split; [exact Hin|]. intros [[Heq|Hd] Hr].
      * apply Hn1. split; [now symmetry|exact Hr].
      * apply Hn2. tauto.
    + intros [Hin Hno]. repeat split; [exact Hin| |].
      * intros [Heq Hr]. apply Hno. split; [left; now symmetry|exact Hr].
      * intros [Hd Hr]. apply Hno. tauto.
Qed.

(** X20.  After [deleteSelectedMedia] the list is read again from the
    directory without the files just removed: a name is listed exactly
    when the directory listing had it (under the same filters) and it was
    not both selected and removed; no item is selected and
    [_selectedCount] is 0.  A selected file the platform did not remove
    is listed again, not selected. *)
Theorem deleteSelectedMedia_relists (removable : string -> bool) (env : Env)
    (s : State) :
  let s' := (deleteSelectedMedia removable env s).2 in
  (forall n,
     List.In n (fileNames (_mediaList s')) <->
     List.In n (entryList (nameFilters env s) (browsed env s)) /\
     ~ (List.In n (selected_names s) /\
        removable (photoPath env s ++ "/" ++ n)%string = true)) /\
  _selectedCount s' = 0 /\
  (forall item, List.In item (_mediaList s') -> selected item = false) /\
  _browseVideos s' = _browseVideos s.
Proof.
  unfold deleteSelectedMedia.
  pose proof (collect_all (_mediaList s) [] [] s eq_refl) as Hc.
  cbn [length] in Hc.
  destruct (fold_left (fun acc i => collect i acc)
              (seq 0 (length (_mediaList s))) ([], s)) as [toDelete s1].
  destruct Hc as [Htd Hb]. simpl in Htd. fold (selected_names s) in Htd.
  assert (Hpath : forall env0, photoPath env0 s1 = photoPath env0 s)
    by (intros env0; unfold photoPath; now rewrite Hb).
  assert (Hfold :
            fold_left (fun env0 fileName =>
                         QFile_remove removable (photoPath env0 s1) fileName
                           env0) toDelete env
            = fold_left (fun env0 fileName =>
                           QFile_remove removable (photoPath env0 s) fileName
                             env0) toDelete env).
  { clear Htd. revert env. induction toDelete as [|n td IH]; intros env;
      [reflexivity|]. simpl. now rewrite Hpath, IH. }
  rewrite Hfold. clear Hfold.
  destruct (remove_all_entries removable s toDelete env) as (Hs & Hx & He).
  set (env' := fold_left _ toDelete env) in *. cbn [snd].
  destruct (refresh_unselected env' s1) as (H0 & Hb' & Hu).
  split; [|split; [exact H0|split; [exact Hu|now rewrite Hb']]].
  intros n.
  assert (Hf : nameFilters env' s1 = nameFilters env s)
    by (unfold nameFilters; now rewrite Hb, Hx).
  assert (Hd : browsed env' s1 = dir_entries env' (photoPath env s))
    by (unfold browsed, photoPath; now rewrite Hb, Hs).
  split.
  - intros Hn. eapply Permutation_in in Hn; [|apply refresh_names].
    rewrite Hf, Hd in Hn. apply entryList_In in Hn.
    destruct Hn as (e & Hin & Hname & Hp & Hm). apply He in Hin.
    destruct Hin as [Hin Hno]. split.
    + apply entryList_In. exists e. auto.
    + rewrite <- Htd, <- Hname. exact Hno.
  - intros [Hn Hno]. eapply Permutation_in; [symmetry; apply refresh_names|].
    rewrite Hf, Hd. apply entryList_In in Hn.
    destruct Hn as (e & Hin & Hname & Hp & Hm). apply entryList_In.
    exists e. repeat split; try assumption. apply He.
    split; [exact Hin|]. rewrite Hname, Htd. exact Hno.
Qed.

(** Two photos, the newer one selected: it is removed and the other is
    what the list shows. *)
Example deleteSelectedMedia_photos :
  let file := fun n => {| name := n; isFile := true; isReadable := true;
                          isSymLink := false; isHidden := false |} in
  let env := {| savePath := "/sdcard"; YUNEEC_VIDEO_EXTENSION := ".mp4";
                dir_entries := fun p =>
                  if String.eqb p "/sdcard/Photo"
                  then [file "P_0001.jpg"; file "P_0002.jpg"]%string
                  else [] |} in
  let s := {| _mediaList := [{| fileName := "P_0002.jpg"; selected := true |};
                             {| fileName := "P_0001.jpg"; selected := false |}];
              _selectedCount := 1; _browseVideos := false; emitted := [] |} in
  fileNames (_mediaList (deleteSelectedMedia (fun _ => true) env s).2)
  = ["P_0001.jpg"%string].
Proof. reflexivity. Qed.

(** X28.  The list interface handed to the UI is consistent:
    [appendMediaItem] puts the item at the end, where [mediaItem] finds
    it at the old [mediaCount], and leaves the items before it in place;
    [clearMediaItems] leaves a list of count 0 in which [mediaItem] is
    [NULL] at every index. *)
Theorem media_list_interface (p : TyphoonMediaItem) (s : State) :
  mediaCount (appendMediaItem p s) = mediaCount s + 1 /\
  mediaItem (mediaCount s) (appendMediaItem p s) = Item p /\
  (forall i, 0 <= i < mediaCount s ->
             mediaItem i (appendMediaItem p s) = mediaItem i s) /\
  mediaCount (clearMediaItems s) = 0 /\
  (forall i, mediaItem i (clearMediaItems s) = Null).
Proof.
  unfold mediaCount, mediaItem, appendMediaItem, clearMediaItems, QList_at.
  cbn [_mediaList set_mediaList].
  generalize (_mediaList s). intros l. rewrite List.length_app. cbn [length].
  rewrite Nat2Z.inj_add. change (Z.of_nat 1) with 1.
  pose proof (Nat2Z.is_nonneg (length l)) as Hn.
  split; [reflexivity|]. split; [|split; [|split]].
  - rewrite Nat2Z.id, list_lookup_middle by reflexivity.
    generalize dependent (Z.of_nat (length l)). intros n Hn.
    assert (G : (n >=? 0) && negb (n + 1 =? 0) && (n <? n + 1) = true) by lia.
    assert (G0 : (n <? 0) = false) by lia.
    now rewrite G, G0.
  - intros i Hi. rewrite lookup_app_l by lia.
    generalize dependent (Z.of_nat (length l)). intros n Hn Hi.
    assert (G : (i >=? 0) && negb (n + 1 =? 0) && (i <? n + 1) = true) by lia.
    assert (G' : (i >=? 0) && negb (n =? 0) && (i <? n) = true) by lia.
    now rewrite G, G'.
  - reflexivity.
  - intros i. cbn [length]. now rewrite andb_false_r.
Qed.

Lemma media_list_interface_witness :
  let s := {| _mediaList := [{| fileName := "b.jpg"; selected := false |}];
              _selectedCount := 0; _browseVideos := false; emitted := [] |} in
  let p := {| fileName := "a.jpg"; selected := false |} in
  mediaItem 0 (appendMediaItem p s) = mediaItem 0 s.
Proof.
  intros s p.
  exact (proj1 (proj2 (proj2 (media_list_interface p s))) 0
           ltac:(unfold mediaCount; simpl; lia)).
Defined.

End SelectionFacts.

(* ================================================================== *)
(** ** More on the log rotation, the scan list and the mission import *)
(* ================================================================== *)

Section LogBoundFacts.
Import StdSort Logs.

Lemma total_size_perm (l l' : list QFileInfo) :
  Permutation l l' -> total_size l = total_size l'.
Proof.
  induction 1 as [|x l l' _ IH|x y l|l l' l'' _ IH1 _ IH2].
  - reflexivity.
  - rewrite !total_size_cons. lia.
  - rewrite !total_size_cons. lia.
  - lia.
Qed.

Lemma remove_logs_fits (total : Z) (logs : list QFileInfo) :
  total <= 1024 * 1024 * 1024 -> remove_logs total logs = ([], logs).
Proof.
  intros H. destruct logs as [|f logs]; [reflexivity|]. simpl.
  assert (E : (total >? 1024 * 1024 * 1024) = false) by lia. now rewrite E.
Qed.

(** X23.  The rotation bounds the logs and touches nothing else: the
    files it removes and the files it keeps are together the files of the
    listing; with more than one file listed, what it keeps is nothing or
    fits in 1 GB (1073741824 bytes); and when the listing fits in 1 GB,
    or has one file at most, it removes nothing. *)
Theorem init_logs_bounded (entries : list QFileInfo) :
  Permutation (map filePath entries)
    ((init_logs entries).1 ++ map filePath (init_logs entries).2) /\
  ((1 < length entries)%nat ->
   (init_logs entries).2 = []
   \/ total_size (init_logs entries).2 <= 1024 * 1024 * 1024) /\
  (total_size entries <= 1024 * 1024 * 1024 \/ (length entries <= 1)%nat ->
   (init_logs entries).1 = [] /\ Permutation entries (init_logs entries).2).
Proof.
  unfold init_logs.
  pose proof (std_sort_perm created_greater_than entries) as Hperm.
  pose proof (std_sort_length created_greater_than entries) as Hlen.
  pose proof (total_size_perm _ _ Hperm) as Hsize.
  set (logs := std_sort created_greater_than entries) in *.
  destruct (Z.of_nat (length logs) >? 1) eqn:E.
  - pose proof (remove_logs_bound logs) as Hb.
    split; [|split].
    + destruct (remove_logs (total_size logs) logs) as [removed kept].
      destruct Hb as [_ (gone & Hg & ->)]. simpl.
      rewrite <- List.map_app, <- Hg. now apply Permutation_map.
    + intros _. destruct (remove_logs (total_size logs) logs)
        as [removed kept]. simpl. tauto.
    + intros [Hfit|Hone]; [|lia].
      rewrite remove_logs_fits by lia. simpl. now split.
  - simpl. split; [now apply Permutation_map|]. split; [lia|].
    intros _. now split.
Qed.

Lemma init_logs_bounded_witness :
  let a := {| filePath := "a.tlog"; created := 10; size := 700 * 1024 * 1024 |} in
  let b := {| filePath := "b.tlog"; created := 20; size := 700 * 1024 * 1024 |} in
  (init_logs [a; b]).2 = []
  \/ total_size (init_logs [a; b]).2 <= 1024 * 1024 * 1024.
Proof.
  intros a b.
  exact (proj1 (proj2 (init_logs_bounded [a; b])) ltac:(simpl; lia)).
Defined.

End LogBoundFacts.

Section ScanListFacts.
Import StdSort Wifi.

Lemma findSsid_found (name : string) (r : Z) (l : list TyphoonSSIDItem)
    (found : TyphoonSSIDItem) :
  (_findSsid name r l).1 = Some found -> List.In name (ssids l).
Proof.
  induction l as [|s0 l IH]; simpl; [discriminate|].
  destruct (String.eqb (ssid s0) name) eqn:E.
  - intros _. left. now apply String.eqb_eq.
  - intros H. right. apply IH. destruct (_findSsid name r l). exact H.
Qed.

(** X24.  A report of a network that is not listed (and that the build
    accepts) appends it and sorts: afterwards the list is the old
    entries and the new one, in descending signal strength whatever the
    order was before, and [ssidListChanged] is sent. *)
Theorem newSSID_append_sorts (b : Build) (name : string) (r : Z) (s : State) :
  accepted b name = true -> ~ List.In name (ssids (_ssidList s)) ->
  let s' := _newSSID b name r s in
  descending_rssi (_ssidList s') /\
  Permutation (_ssidList s ++ [{| ssid := name; rssi := r |}]) (_ssidList s') /\
  emitted s' = emitted s ++ [ssidListChanged].
Proof.
  intros Ha Hni s'. split; [now apply newSSID_append_descending|].
  subst s'. unfold _newSSID. fold (accepted b name). rewrite Ha.
  pose proof (findSsid_found name r (_ssidList s)) as Hf.
  pose proof (findSsid_None name r (_ssidList s)) as Hn.
  destruct (_findSsid name r (_ssidList s)) as [[found|] l]; simpl in *.
  - exfalso. apply Hni. now apply (Hf found).
  - destruct (Hn eq_refl) as [_ ->]. split; [apply std_sort_perm|reflexivity].
Qed.

Lemma newSSID_append_sorts_witness :
  let b := {| androidx86 := true; qt_debug := false; startScan_default := 0 |} in
  let s := {| _ssidList := [{| ssid := "E90_A"; rssi := -70 |};
                            {| ssid := "E90_B"; rssi := -30 |}];
              _configurations := ∅; _ssid := "";
              _scanEnabled := true; _scanningWiFi := true;
              _bindingWiFi := false; settings_WifiConfig := ∅; jni := [];
              timers := []; emitted := [] |} in
  descending_rssi (_ssidList (_newSSID b "E90_C" (-50) s)).
Proof.
  intros b s.
  assert (Hni : ~ List.In "E90_C"%string (ssids (_ssidList s))).
  { simpl. intros [H|[H|[]]]; discriminate. }
  exact (proj1 (newSSID_append_sorts b "E90_C" (-50) s eq_refl Hni)).
Defined.

End ScanListFacts.

Section ImportFacts.
Import Missions.

Lemma import_loop_message (env : Env) (totalFiles : Z) (fil : list QFileInfo) :
  forall (curCount : Z) (s : State),
    let s' := import_loop env totalFiles curCount fil s in
    (_copyMessage s'
     = (NilZero.string_of_int (Z.to_int totalFiles) ++ " files imported")%string
     \/ exists fi, List.In fi fil
                   /\ _copyMessage s'
                      = ("Error importing " ++ filePath fi)%string) /\
    timers s' = timers s.
Proof.
  induction fil as [|fi fil IH]; intros curCount s.
  - simpl. split; [now left|reflexivity].
  - cbn [import_loop List.In].
    set (output := (missionSavePath env ++ "/" ++ fileName fi)%string).
    set (s1 := if bool_decide (is_Some (files s !! output))
               then set_files (delete output (files s)) s else s).
    assert (Ht1 : timers s1 = timers s)
      by (subst s1; case_bool_decide; reflexivity).
    destruct (QFile_copy (filePath fi) output (files s1)) as [fs|].
    + specialize (IH (curCount + 1)
                    (_copyProgress env totalFiles (curCount + 1)
                       (set_files fs s1))).
      cbv zeta in IH. destruct IH as [Hm Ht]. split.
      * destruct Hm as [Hm|(fj & Hj & Hm)]; [now left|].
        right. exists fj. split; [now right|exact Hm].
      * rewrite Ht. unfold _copyProgress.
        destruct (totalFiles =? 0); simpl; exact Ht1.
    + simpl. split; [|exact Ht1].
      right. exists fi. split; [now left|reflexivity].
Qed.

(** X25.  With the source directory there, [_importMissions] always
    finishes the operation: [_copyingFiles] is cleared and
    [_copyingDone] set, and the message is either the number of plan
    files found followed by " files imported", or "Error importing "
    followed by the path of one of them, the first whose copy failed; no
    timer is armed. *)
Theorem importMissions_finishes (env : Env) (s : State) :
  source_exists env = true ->
  let s' := _importMissions env s in
  _copyingFiles s' = false /\
  _copyingDone s' = true /\
  (_copyMessage s'
   = (NilZero.string_of_int (Z.to_int (Z.of_nat (length (plan_files env))))
        ++ " files imported")%string
   \/ exists fi, List.In fi (plan_files env)
                 /\ _copyMessage s'
                    = ("Error importing " ++ filePath fi)%string) /\
  timers s' = timers s.
Proof.
  intros He s'. subst s'. unfold _importMissions. rewrite He. cbn [negb].
  match goal with |- context [import_loop env ?t ?c ?fil ?s0] =>
    destruct (import_loop_resets env t c fil s0) as [H1 H2];
    destruct (import_loop_message env t fil c s0) as [H3 H4]
  end.
  cbv zeta in H1, H2, H3, H4. rewrite H1, H2, H4.
  split; [reflexivity|]. split; [reflexivity|]. split; [exact H3|].
  unfold _copyProgress. now destruct (_ =? 0).
Qed.

Lemma importMissions_finishes_witness :
  let env := {| source_exists := true;
                plan_files := [{| filePath := "/storage/sdcard1/a.plan";
                                  fileName := "a.plan" |}];
                missionSavePath := "/missions";
                percent := fun cur total => 100 * cur / total |} in
  let s := {| _copyingFiles := true; _copyingDone := false;
              _copyMessage := ""; _updateProgress := 0;
              files := <["/storage/sdcard1/a.plan"%string := [Byte.x01]]> ∅;
              timers := []; emitted := [] |} in
  _copyingFiles (_importMissions env s) = false /\
  _copyMessage (_importMissions env s) = "1 files imported"%string.
Proof.
  intros env s. split.
  - exact (proj1 (importMissions_finishes env s eq_refl)).
  - reflexivity.
Defined.

End ImportFacts.
